(** * Renewable-energy agent: a shallow embedding of the chat client, its
      store, its forms and the relational schema, with the properties the
      specification states about them.

    Definitions:
    - [Js]               JavaScript strings as UTF-16 code units, [trim],
                         truthiness, [||], and the regular expressions the
                         forms use;
    - [ChatInput]        frontend/src/components/ChatInput.tsx;
    - [UserRegistration] frontend/src/components/UserRegistration.tsx;
    - [User] ... [AppState]
                         the interfaces of the frontend, one module each;
    - [AppStore]         frontend/src/stores/appStore.ts;
    - [ChatInterface]    the chat relay and the service call it makes;
    - [Schema]           backend/database_schema.sql: the tables and the
                         row level security policies;
    - [Cascade]          its foreign keys with ON DELETE CASCADE;
    - [Triggers]         its trigger on projects;
    - [Embedding]        its embedding column and the embedding settings of
                         the environment template;
    - [Statements]       one SQL statement on one table of the schema, with
                         policies, keys, column types, trigger and cascades;
    - [Retriever]        the retriever, from the specification;
    - [Scenario]         concrete users, backends and tables.

    Properties: one module per module above ([JsFacts], [ChatInputSpec],
    ...), in the same order, then what follows from several of them
    ([ChatInputLaws], ..., [SchemaLaws], [StatementsSpec]). *)

From Stdlib Require Import NArith ZArith QArith String Ascii DecimalString.
From Stdlib Require Import PrimFloat FloatOps SpecFloat Lia.
From stdpp Require Import base option list gmap.

Set Default Proof Using "Type".
Local Open Scope N_scope.

(* ===================================================================== *)
(** ** JavaScript values *)
(* ===================================================================== *)

Module Js.

(** A JavaScript string is a sequence of UTF-16 code units. *)
Abbreviation jsString := (list N).

(** A string literal of the sources (all of them are ASCII). *)
Definition lit (s : string) : jsString :=
  (fun a : ascii => N_of_ascii a) <$> list_ascii_of_string s.

(** ECMAScript WhiteSpace and LineTerminator code points: what
    [String.prototype.trim] strips and what [\s] matches.
    TAB LF VT FF CR SP NBSP, U+1680, U+2000..U+200A, U+2028, U+2029,
    U+202F, U+205F, U+3000, U+FEFF. *)
Definition isWhiteSpace (c : N) : bool :=
  existsb (N.eqb c)
    [9; 10; 11; 12; 13; 32; 160; 5760; 8232; 8233; 8239; 8287; 12288; 65279]
  || ((8192 <=? c) && (c <=? 8202)).

Fixpoint trimStart (s : jsString) : jsString :=
  match s with
  | [] => []
  | c :: rest => if isWhiteSpace c then trimStart rest else s
  end.

Definition trimEnd (s : jsString) : jsString :=
  reverse (trimStart (reverse s)).

(** [s.trim()] *)
Definition trim (s : jsString) : jsString := trimEnd (trimStart s).

(** ToBoolean on a string: only the empty string is falsy. *)
Definition truthy (s : jsString) : bool :=
  match s with [] => false | _ => true end.

(** ToBoolean on a possibly-undefined string property. *)
Definition truthyOpt (o : option jsString) : bool :=
  match o with Some s => truthy s | None => false end.

(** [a || d] where [a] is a possibly-undefined string and [d] a string. *)
Definition orElse (a : option jsString) (d : jsString) : jsString :=
  match a with
  | Some s => if truthy s then s else d
  | None => d
  end.

(** [a !== b] on strings. *)
Definition strictNe (a b : jsString) : bool := negb (bool_decide (a = b)).

(** *** Regular expressions

    The fragment the sources use: character classes, sequencing,
    alternation, repetition, and the two anchors. Matching is by
    derivatives, so [test] runs. *)

Inductive regex : Type :=
| Void
| Eps
| Class (p : N -> bool)
| Seq (r1 r2 : regex)
| Alt (r1 r2 : regex)
| Star (r : regex).

(** [r+] *)
Definition Plus (r : regex) : regex := Seq r (Star r).

(** A single literal code unit. *)
Definition Chr (c : N) : regex := Class (N.eqb c).

Fixpoint nullable (r : regex) : bool :=
  match r with
  | Void => false
  | Eps => true
  | Class _ => false
  | Seq r1 r2 => nullable r1 && nullable r2
  | Alt r1 r2 => nullable r1 || nullable r2
  | Star _ => true
  end.

Fixpoint deriv (c : N) (r : regex) : regex :=
  match r with
  | Void => Void
  | Eps => Void
  | Class p => if p c then Eps else Void
  | Seq r1 r2 =>
      Alt (Seq (deriv c r1) r2) (if nullable r1 then deriv c r2 else Void)
  | Alt r1 r2 => Alt (deriv c r1) (deriv c r2)
  | Star r0 => Seq (deriv c r0) (Star r0)
  end.

(** Whole-string match. *)
Definition fullMatch (r : regex) (s : jsString) : bool :=
  nullable (foldl (fun r c => deriv c r) r s).

(** A regular expression literal [/^body$/]: each anchor may be absent. *)
Record RegExp : Type := mkRegExp {
  anchorStart : bool;
  body : regex;
  anchorEnd : bool
}.

Definition anything : regex := Star (Class (fun _ => true)).

(** [re.test(s)] for a literal without flags: some substring matches,
    pinned to the ends the anchors name. *)
Definition test (re : RegExp) (s : jsString) : bool :=
  let r1 := if anchorStart re then body re else Seq anything (body re) in
  let r2 := if anchorEnd re then r1 else Seq r1 anything in
  fullMatch r2 s.

(** [[^\s@]] *)
Definition notSpaceNorAt (c : N) : bool := negb (isWhiteSpace c || (c =? 64)).

(** [/^[^\s@]+@[^\s@]+\.[^\s@]+$/] *)
Definition emailPattern : RegExp :=
  mkRegExp true
    (Seq (Plus (Class notSpaceNorAt))
      (Seq (Chr 64)
        (Seq (Plus (Class notSpaceNorAt))
          (Seq (Chr 46)
            (Plus (Class notSpaceNorAt))))))
    true.

(** The language of a regular expression, as a relation. *)
Inductive Lang : regex -> jsString -> Prop :=
| LangEps : Lang Eps []
| LangClass p c : p c = true -> Lang (Class p) [c]
| LangSeq r1 r2 s1 s2 : Lang r1 s1 -> Lang r2 s2 -> Lang (Seq r1 r2) (s1 ++ s2)
| LangAltL r1 r2 s : Lang r1 s -> Lang (Alt r1 r2) s
| LangAltR r1 r2 s : Lang r2 s -> Lang (Alt r1 r2) s
| LangStarStop r : Lang (Star r) []
| LangStarStep r s1 s2 :
    Lang r s1 -> Lang (Star r) s2 -> Lang (Star r) (s1 ++ s2).

End Js.

(* ===================================================================== *)
(** ** frontend/src/components/ChatInput.tsx *)
(* ===================================================================== *)

Module ChatInput.
Import Js.

(** The props the handlers read. [onSendMessage] is a callback: its calls
    are recorded, in order, in [sendCalls]. *)
Record Props : Type := mkProps {
  isLoading : bool;
  disabled : bool
}.

(** [message] is the [useState] cell; [textareaHeight] is
    [textareaRef.current.style.height], [None] while the ref is unset. *)
Record State : Type := mkState {
  message : jsString;
  textareaHeight : option jsString;
  sendCalls : list jsString
}.

Definition handleSubmit (p : Props) (st : State) : State :=
  if negb (truthy (trim (message st))) || isLoading p || disabled p then st
  else
    {| message := [];
       textareaHeight :=
         match textareaHeight st with
         | Some _ => Some (lit "auto")
         | None => None
         end;
       sendCalls := sendCalls st ++ [trim (message st)] |}.

(** The key event, as far as [handleKeyDown] reads it. *)
Record KeyEvent : Type := mkKeyEvent {
  key : jsString;
  shiftKey : bool
}.

Definition handleKeyDown (p : Props) (e : KeyEvent) (st : State) : State :=
  if bool_decide (key e = lit "Enter") && negb (shiftKey e)
  then handleSubmit p st
  else st.

Definition canSend (p : Props) (st : State) : bool :=
  (0 <? length (trim (message st)))%nat && negb (isLoading p) && negb (disabled p).

(** The change event, as far as [handleInputChange] reads it: the value
    of the textarea, and its [scrollHeight] (an integer number of pixels)
    once its height has been set to 'auto'. *)
Record ChangeEvent : Type := mkChangeEvent {
  value : jsString;
  scrollHeight : N
}.

(** [`${n}px`] for an integer [n]. *)
Definition px (n : N) : jsString :=
  lit (DecimalString.NilZero.string_of_uint (N.to_uint n)) ++ lit "px".

(** The event target is the textarea itself, so its height is set whether
    or not the ref has been attached. *)
Definition handleInputChange (e : ChangeEvent) (st : State) : State :=
  {| message := value e;
     textareaHeight := Some (px (N.min (scrollHeight e) 120));
     sendCalls := sendCalls st |}.

(** What the user can do to the component: type, press a key in the
    textarea, click the send button. *)
Inductive Event : Type :=
| Change (e : ChangeEvent)
| KeyDown (e : KeyEvent)
| Click.

(** An event runs the handler bound to it, under the props of the render
    it arrives in. *)
Definition dispatch (st : State) (pe : Props * Event) : State :=
  match pe.2 with
  | Change e => handleInputChange e st
  | KeyDown e => handleKeyDown pe.1 e st
  | Click => handleSubmit pe.1 st
  end.

(** A message as [ChatInput] may hand it over: not empty, and with no white
    space at either end. *)
Definition tidy (s : jsString) : Prop :=
  s <> []
  /\ (forall c rest, s = c :: rest -> isWhiteSpace c = false)
  /\ (forall c front, s = front ++ [c] -> isWhiteSpace c = false).

End ChatInput.

(* ===================================================================== *)
(** ** frontend/src/components/UserRegistration.tsx *)
(* ===================================================================== *)

Module UserRegistration.
Import Js.

Record RegistrationRequest : Type := mkRegistrationRequest {
  name : jsString;
  email : jsString
}.

(** [Partial<RegistrationRequest>]: a property is either absent or holds
    the message for its field. *)
Record Errors : Type := mkErrors {
  nameError : option jsString;
  emailError : option jsString
}.

(** [Object.keys(e).length] *)
Definition keysLength (e : Errors) : nat :=
  (if nameError e is Some _ then 1 else 0)
  + (if emailError e is Some _ then 1 else 0).

(** [formData] and [errors] are the two [useState] cells; the calls of the
    [onRegister] prop are recorded in [registerCalls]. *)
Record State : Type := mkState {
  formData : RegistrationRequest;
  errors : Errors;
  registerCalls : list RegistrationRequest
}.

Definition validateForm (st : State) : bool * State :=
  let newName :=
    if negb (truthy (trim (name (formData st)))) then
      Some (lit "Name is required")
    else if (length (trim (name (formData st))) <? 2)%nat then
      Some (lit "Name must be at least 2 characters")
    else None in
  let newEmail :=
    if negb (truthy (trim (email (formData st)))) then
      Some (lit "Email is required")
    else if negb (test emailPattern (email (formData st))) then
      Some (lit "Please enter a valid email address")
    else None in
  let newErrors := {| nameError := newName; emailError := newEmail |} in
  ((keysLength newErrors =? 0)%nat,
   {| formData := formData st;
      errors := newErrors;
      registerCalls := registerCalls st |}).

(** [onRegister] may reject; the handler catches that and only logs it, so
    the component state is the same either way. *)
Definition handleSubmit (st : State) : State :=
  let '(ok, st1) := validateForm st in
  if negb ok then st1
  else
    {| formData := formData st1;
       errors := errors st1;
       registerCalls := registerCalls st1 ++ [formData st1] |}.

(** [keyof RegistrationRequest] *)
Inductive Field : Type := nameField | emailField.

(** [formData[field]] and [errors[field]] *)
Definition getField (field : Field) (r : RegistrationRequest) : jsString :=
  match field with nameField => name r | emailField => email r end.

Definition getError (field : Field) (e : Errors) : option jsString :=
  match field with nameField => nameError e | emailField => emailError e end.

(** [{ ...prev, [field]: value }] *)
Definition setField (field : Field) (v : jsString) (r : RegistrationRequest)
  : RegistrationRequest :=
  match field with
  | nameField => {| name := v; email := email r |}
  | emailField => {| name := name r; email := v |}
  end.

(** [{ ...prev, [field]: undefined }] *)
Definition clearFieldError (field : Field) (e : Errors) : Errors :=
  match field with
  | nameField => {| nameError := None; emailError := emailError e |}
  | emailField => {| nameError := nameError e; emailError := None |}
  end.

Definition handleInputChange (field : Field) (v : jsString) (st : State)
  : State :=
  {| formData := setField field v (formData st);
     errors :=
       if truthyOpt (getError field (errors st))
       then clearFieldError field (errors st)
       else errors st;
     registerCalls := registerCalls st |}.

End UserRegistration.

(* ===================================================================== *)
(** ** The shared interfaces of the frontend (types/index.ts) *)
(* ===================================================================== *)

(** [Date]: milliseconds since the epoch. *)
Abbreviation Date := N.

(** [number]: an IEEE 754 binary64 value. *)
Abbreviation number := float.

Module UserPreferences.
Inductive Theme : Type := light | dark.
Inductive EnergyUnits : Type := metric | imperial.
(** Every property is declared with [?]: its key may be absent ([None]),
    or be there and hold [undefined] ([Some None]) or a value. *)
Record t : Type := mk {
  theme : option (option Theme);
  notifications : option (option bool);
  energyUnits : option (option EnergyUnits)
}.
(** [{...a, ...b}]: the keys of [b] with what they hold in [b], [undefined]
    included, and the keys only [a] has. *)
Definition spread (a b : t) : t :=
  {| theme := if theme b is Some x then Some x else theme a;
     notifications :=
       if notifications b is Some x then Some x else notifications a;
     energyUnits := if energyUnits b is Some x then Some x else energyUnits a |}.
Definition empty : t :=
  {| theme := None; notifications := None; energyUnits := None |}.
(** Reading a property: [undefined] when the key is absent. *)
Definition get {V} (property : option (option V)) : option V :=
  match property with
  | Some x => x
  | None => None
  end.
End UserPreferences.

Module User.
Import Js.
(** [id] is not declared by the interface; [createNewConversation] reads it
    all the same, so it is kept as a property that may be absent. *)
Record t : Type := mk {
  user_id : jsString;
  name : jsString;
  email : jsString;
  interests : option (list jsString);
  registered_at : option jsString;
  preferences : option UserPreferences.t;
  id : option jsString
}.
End User.

Module MathResponse.
Import Js.
(** The object as it comes off the wire. The interface declares [result],
    [operation], [explanation] and [renewable_context] as always there; the
    relay guards every read of them, so they are kept optional here.
    [units] is read by the relay although the interface lacks it. *)
Record t : Type := mk {
  result : option number;
  operation : option jsString;
  explanation : option jsString;
  renewable_context : option jsString;
  confidence : number;
  environmental_impact : option jsString;
  units : option jsString
}.
End MathResponse.

Module ChatMessage.
Import Js.
Inductive Sender : Type := user | assistant.
Record t : Type := mk {
  id : jsString;
  content : jsString;
  sender : Sender;
  timestamp : Date;
  mathResponse : option MathResponse.t
}.
End ChatMessage.

Module Conversation.
Import Js.
Record t : Type := mk {
  id : jsString;
  userId : jsString;
  messages : list ChatMessage.t;
  createdAt : Date;
  updatedAt : Date
}.
End Conversation.

Module ApiResponse.
Import Js.
Record t (T : Type) : Type := mk {
  success : bool;
  data : option T;
  error : option jsString;
  message : option jsString
}.
Arguments mk {T}.
Arguments success {T}.
Arguments data {T}.
Arguments error {T}.
Arguments message {T}.
End ApiResponse.

(** A JSON value, as [JSON.stringify] writes an object to the wire. *)
#[local] Unset Elimination Schemes.
Inductive Json : Type :=
| JNull
| JBool (b : bool)
| JNumber (x : number)
| JString (s : Js.jsString)
| JArray (xs : list Json)
| JObject (members : list (Js.jsString * Json)).
#[local] Set Elimination Schemes.

Definition jsonKeys (j : Json) : list Js.jsString :=
  match j with
  | JObject members => fst <$> members
  | _ => []
  end.

Definition jsonGet (k : Js.jsString) (j : Json) : option Json :=
  match j with
  | JObject members => snd <$> List.find (fun kv => bool_decide (kv.1 = k)) members
  | _ => None
  end.

Module ChatRequest.
Import Js.
Record t : Type := mk {
  message : jsString;
  userId : jsString;
  conversationId : option jsString
}.
(** The request body axios posts: an absent property is not written. *)
Definition toJSON (r : t) : Json :=
  JObject
    ([(lit "message", JString (message r)); (lit "userId", JString (userId r))]
     ++ (if conversationId r is Some c
         then [(lit "conversationId", JString c)] else [])).
End ChatRequest.

(** The [data] of a chat response:
    [{ response: string; math_response?: MathResponse }]. The relay tests
    [response] for truthiness, so it may be absent here. *)
Module ChatData.
Import Js.
Record t : Type := mk {
  response : option jsString;
  math_response : option MathResponse.t
}.
End ChatData.

Module AppState.
Import Js.
Record t : Type := mk {
  user : option User.t;
  currentConversation : option Conversation.t;
  conversations : list Conversation.t;
  isLoading : bool;
  error : option jsString
}.
End AppState.

(* ===================================================================== *)
(** ** frontend/src/stores/appStore.ts *)
(* ===================================================================== *)

Module AppStore.
Import Js.

(** What an updater hands to zustand's [set]: the properties it names. *)
Record Partial : Type := mkPartial {
  p_user : option (option User.t);
  p_currentConversation : option (option Conversation.t);
  p_conversations : option (list Conversation.t);
  p_isLoading : option bool;
  p_error : option (option jsString)
}.

Definition nothing : Partial := mkPartial None None None None None.

(** An updater that returns the state object itself. *)
Definition whole (s : AppState.t) : Partial :=
  mkPartial (Some (AppState.user s)) (Some (AppState.currentConversation s))
    (Some (AppState.conversations s)) (Some (AppState.isLoading s))
    (Some (AppState.error s)).

(** [Object.assign({}, state, partial)] *)
Definition assign (s : AppState.t) (p : Partial) : AppState.t :=
  {| AppState.user := default (AppState.user s) (p_user p);
     AppState.currentConversation :=
       default (AppState.currentConversation s) (p_currentConversation p);
     AppState.conversations :=
       default (AppState.conversations s) (p_conversations p);
     AppState.isLoading := default (AppState.isLoading s) (p_isLoading p);
     AppState.error := default (AppState.error s) (p_error p) |}.

(** zustand's [set(partial)] with [replace = false]. *)
Definition set (partial : AppState.t -> Partial) (state : AppState.t)
  : AppState.t :=
  assign state (partial state).

Definition initialState : AppState.t :=
  {| AppState.user := None;
     AppState.currentConversation := None;
     AppState.conversations := [];
     AppState.isLoading := false;
     AppState.error := None |}.

Definition setUser (user : option User.t) : AppState.t -> AppState.t :=
  set (fun _ => {| p_user := Some user; p_currentConversation := None;
                   p_conversations := None; p_isLoading := None;
                   p_error := None |}).

Definition updateUserPreferences (preferences : UserPreferences.t)
  : AppState.t -> AppState.t :=
  set (fun state =>
    {| p_user := Some
         (match AppState.user state with
          | Some u =>
              Some {| User.user_id := User.user_id u;
                      User.name := User.name u;
                      User.email := User.email u;
                      User.interests := User.interests u;
                      User.registered_at := User.registered_at u;
                      User.preferences := Some
                        (UserPreferences.spread
                           (default UserPreferences.empty (User.preferences u))
                           preferences);
                      User.id := User.id u |}
          | None => None
          end);
       p_currentConversation := None; p_conversations := None;
       p_isLoading := None; p_error := None |}).

Definition setCurrentConversation (conversation : option Conversation.t)
  : AppState.t -> AppState.t :=
  set (fun _ => {| p_user := None; p_currentConversation := Some conversation;
                   p_conversations := None; p_isLoading := None;
                   p_error := None |}).

Definition addConversation (conversation : Conversation.t)
  : AppState.t -> AppState.t :=
  set (fun state =>
    {| p_user := None;
       p_currentConversation := Some (Some conversation);
       p_conversations := Some (conversation :: AppState.conversations state);
       p_isLoading := None; p_error := None |}).

(** [conversations.map(conv => conv.id === c.id ? c : conv)] *)
Definition replaceById (c : Conversation.t) (convs : list Conversation.t)
  : list Conversation.t :=
  (fun conv =>
     if bool_decide (Conversation.id conv = Conversation.id c) then c else conv)
  <$> convs.

Definition updateConversation (updatedConversation : Conversation.t)
  : AppState.t -> AppState.t :=
  set (fun state =>
    {| p_user := None;
       p_currentConversation := Some
         (match AppState.currentConversation state with
          | Some cur =>
              if bool_decide
                   (Conversation.id cur = Conversation.id updatedConversation)
              then Some updatedConversation else Some cur
          | None => None
          end);
       p_conversations := Some
         (replaceById updatedConversation (AppState.conversations state));
       p_isLoading := None; p_error := None |}).

(** [now] is what [new Date()] gives when the updater runs. *)
Definition addMessage (now : Date) (message : ChatMessage.t)
  : AppState.t -> AppState.t :=
  set (fun state =>
    match AppState.currentConversation state with
    | None => whole state
    | Some cur =>
        let updatedConversation :=
          {| Conversation.id := Conversation.id cur;
             Conversation.userId := Conversation.userId cur;
             Conversation.messages := Conversation.messages cur ++ [message];
             Conversation.createdAt := Conversation.createdAt cur;
             Conversation.updatedAt := now |} in
        {| p_user := None;
           p_currentConversation := Some (Some updatedConversation);
           p_conversations := Some
             (replaceById updatedConversation (AppState.conversations state));
           p_isLoading := None; p_error := None |}
    end).

Definition setLoading (isLoading : bool) : AppState.t -> AppState.t :=
  set (fun _ => {| p_user := None; p_currentConversation := None;
                   p_conversations := None; p_isLoading := Some isLoading;
                   p_error := None |}).

Definition setError (error : option jsString) : AppState.t -> AppState.t :=
  set (fun _ => {| p_user := None; p_currentConversation := None;
                   p_conversations := None; p_isLoading := None;
                   p_error := Some error |}).

Definition clearError : AppState.t -> AppState.t :=
  set (fun _ => {| p_user := None; p_currentConversation := None;
                   p_conversations := None; p_isLoading := None;
                   p_error := Some None |}).

Definition reset : AppState.t -> AppState.t :=
  set (fun _ => whole initialState).

End AppStore.

(* ===================================================================== *)
(** ** The chat relay: services/api.ts and components/ChatInterface.tsx *)
(* ===================================================================== *)

Module ChatInterface.
Import Js.

(** What an axios call settles to: the response body, or a rejection that
    may carry [error.response.data.message]. *)
Inductive AxiosResult (T : Type) : Type :=
| Resolved (data : T)
| Rejected (serverMessage : option jsString).
Arguments Resolved {T}.
Arguments Rejected {T}.

(** Everything outside the program: what POST /api/chat settles to for a
    request (with the milliseconds it took), and the text
    [Math.random().toString(36).substr(2, 9)] evaluates to. *)
Record Env : Type := mkEnv {
  postChat : ChatRequest.t -> N * AxiosResult (ApiResponse.t ChatData.t);
  random36 : jsString
}.

(** The store, the wall clock, and the requests that went out. A handler
    runs without interruption: its synchronous parts take no time, and only
    the awaited call moves the clock, by the time the call took. *)
Record World : Type := mkWorld {
  store : AppState.t;
  clock : Date;
  requests : list ChatRequest.t
}.

(** A thrown [Error]. *)
Record Error : Type := mkError { errorMessage : jsString }.

Inductive Outcome (A : Type) : Type :=
| Returned (a : A)
| Thrown (e : Error).
Arguments Returned {A}.
Arguments Thrown {A}.

(** Computations that read and write the world and may throw. *)
Definition M (A : Type) : Type := World -> Outcome A * World.

#[global] Instance M_ret : MRet M := fun A a w => (Returned a, w).
#[global] Instance M_bind : MBind M := fun A B f m w =>
  match m w with
  | (Returned a, w1) => f a w1
  | (Thrown e, w1) => (Thrown e, w1)
  end.

Definition throw {A} (e : Error) : M A := fun w => (Thrown e, w).

(** [try { body } catch (error) { handler } finally { final }] where
    neither [handler] nor [final] is written to throw or return. *)
Definition tryCatchFinally (body : M unit) (handler : Error -> M unit)
    (final : M unit) : M unit :=
  fun w =>
    let '(r, w1) :=
      match body w with
      | (Returned tt, w1) => (Returned tt, w1)
      | (Thrown e, w1) => handler e w1
      end in
    match final w1 with
    | (Returned tt, w2) => (r, w2)
    | (Thrown e, w2) => (Thrown e, w2)
    end.

Definition getStore : M AppState.t := fun w => (Returned (store w), w).

(** Run a store action. *)
Definition act (f : AppState.t -> AppState.t) : M unit :=
  fun w => (Returned tt, mkWorld (f (store w)) (clock w) (requests w)).

(** [Date.now()] and [new Date()]. The clock of the world stands still
    while a handler runs from one await to the next and moves on by the
    time a call takes: readings a few instructions apart are taken as
    equal. *)
Definition dateNow : M Date := fun w => (Returned (clock w), w).

(** An integer written in decimal, as a template literal writes it. *)
Definition decimal (n : N) : jsString :=
  lit (DecimalString.NilZero.string_of_uint (N.to_uint n)).

Definition addMessage (message : ChatMessage.t) : M unit :=
  now ← dateNow; act (AppStore.addMessage now message).

(** [apiService.sendMessage]: post, hand back [response.data]; a rejection
    is rethrown as
    [new Error(error.response?.data?.message || 'Failed to send message')]. *)
Definition sendMessage (env : Env) (chatData : ChatRequest.t)
  : M (ApiResponse.t ChatData.t) :=
  fun w =>
    let '(elapsed, settled) := postChat env chatData in
    let w1 := mkWorld (store w) (clock w + elapsed) (requests w ++ [chatData]) in
    match settled with
    | Resolved data => (Returned data, w1)
    | Rejected serverMessage =>
        (Thrown (mkError (orElse serverMessage (lit "Failed to send message"))),
         w1)
    end.

Section Relay.

(** [Number::toString], taken as given. *)
Variable numberToString : number -> jsString.

Definition createNewConversation (env : Env) (user : option User.t)
  : M Conversation.t :=
  t1 ← dateNow;
  t2 ← dateNow;
  t3 ← dateNow;
  mret {| Conversation.id :=
            lit "conv_" ++ decimal t1 ++ lit "_" ++ random36 env;
          Conversation.userId :=
            orElse (u ← user; User.id u) (lit "anonymous");
          Conversation.messages := [];
          Conversation.createdAt := t2;
          Conversation.updatedAt := t3 |}.

(** The text the relay picks for a successful response, before the
    calculation line is added. *)
Definition pickContent (responseData : ChatData.t) : jsString :=
  let math := ChatData.math_response responseData in
  if truthyOpt (ChatData.response responseData) then
    default [] (ChatData.response responseData)
  else if truthyOpt (m ← math; MathResponse.renewable_context m)
          && strictNe (default [] (m ← math; MathResponse.renewable_context m))
                      (lit "N/A") then
    default [] (m ← math; MathResponse.renewable_context m)
  else if truthyOpt (m ← math; MathResponse.explanation m)
          && strictNe (default [] (m ← math; MathResponse.explanation m))
                      (lit "N/A") then
    default [] (m ← math; MathResponse.explanation m)
  else
    lit "I received your message but couldn't generate a proper response. Please try asking about renewable energy topics or math calculations.".

(** The calculation line appended when the math data names an operation
    and a result. *)
Definition calculationDetails (mathData : option MathResponse.t) : jsString :=
  match mathData with
  | Some m =>
      match MathResponse.operation m, MathResponse.result m with
      | Some op, Some res =>
          if truthy op && strictNe op (lit "N/A")
             && strictNe op (lit "information")
          then
            [10; 10] ++ lit "Calculation: " ++ op ++ lit " = "
            ++ numberToString res
            ++ (if truthyOpt (MathResponse.units m)
                then lit " " ++ default [] (MathResponse.units m) else [])
          else []
      | _, _ => []
      end
  | None => []
  end.

Definition handleSendMessage (env : Env) (messageContent : jsString) : M unit :=
  s ← getStore;
  let user := AppState.user s in
  let currentConversation := AppState.currentConversation s in
  match user with
  | None => mret tt
  | Some theUser =>
    if negb (truthy (trim messageContent)) then mret tt else
    tryCatchFinally
      (act (AppStore.setLoading true);;
       act AppStore.clearError;;
       conversation ←
         match currentConversation with
         | Some c => mret c
         | None =>
             c ← createNewConversation env user;
             act (AppStore.addConversation c);;
             mret c
         end;
       tUserId ← dateNow;
       tUser ← dateNow;
       addMessage
         {| ChatMessage.id := lit "msg_" ++ decimal tUserId ++ lit "_user";
            ChatMessage.content := messageContent;
            ChatMessage.sender := ChatMessage.user;
            ChatMessage.timestamp := tUser;
            ChatMessage.mathResponse := None |};;
       response ← sendMessage env
         {| ChatRequest.message := messageContent;
            ChatRequest.userId := User.user_id theUser;
            ChatRequest.conversationId := Some (Conversation.id conversation) |};
       match ApiResponse.success response, ApiResponse.data response with
       | true, Some responseData =>
           let content :=
             pickContent responseData
             ++ calculationDetails (ChatData.math_response responseData) in
           tId ← dateNow;
           tStamp ← dateNow;
           addMessage
             {| ChatMessage.id := lit "msg_" ++ decimal tId ++ lit "_assistant";
                ChatMessage.content := content;
                ChatMessage.sender := ChatMessage.assistant;
                ChatMessage.timestamp := tStamp;
                ChatMessage.mathResponse := ChatData.math_response responseData |}
       | _, _ =>
           throw (mkError (orElse (ApiResponse.error response)
                                  (lit "Failed to get response")))
       end)
      (fun error =>
         act (AppStore.setError
                (Some (orElse (Some (errorMessage error))
                              (lit "Failed to send message"))));;
         tId ← dateNow;
         tStamp ← dateNow;
         addMessage
           {| ChatMessage.id := lit "msg_" ++ decimal tId ++ lit "_error";
              ChatMessage.content :=
                lit "I apologize, but I encountered an error: "
                ++ errorMessage error ++ lit ". Please try again.";
              ChatMessage.sender := ChatMessage.assistant;
              ChatMessage.timestamp := tStamp;
              ChatMessage.mathResponse := None |})
      (act (AppStore.setLoading false))
  end.

Definition handleClearConversation : M unit :=
  s ← getStore;
  match AppState.currentConversation s with
  | Some cur =>
      now ← dateNow;
      act (AppStore.setCurrentConversation
             (Some {| Conversation.id := Conversation.id cur;
                      Conversation.userId := Conversation.userId cur;
                      Conversation.messages := [];
                      Conversation.createdAt := Conversation.createdAt cur;
                      Conversation.updatedAt := now |}))
  | None => mret tt
  end.

End Relay.

(** The conversation a send works on when it starts in [w]: the current
    one, or the one [createNewConversation] makes then. *)
Definition conversationAt (env : Env) (w : World) : Conversation.t :=
  match AppState.currentConversation (store w) with
  | Some c => c
  | None =>
      {| Conversation.id :=
           lit "conv_" ++ decimal (clock w) ++ lit "_" ++ random36 env;
         Conversation.userId :=
           orElse (u ← AppState.user (store w); User.id u) (lit "anonymous");
         Conversation.messages := [];
         Conversation.createdAt := clock w;
         Conversation.updatedAt := clock w |}
  end.

(** The request a send started in [w] by user [u] posts. *)
Definition requestAt (env : Env) (w : World) (u : User.t)
    (messageContent : jsString) : ChatRequest.t :=
  {| ChatRequest.message := messageContent;
     ChatRequest.userId := User.user_id u;
     ChatRequest.conversationId :=
       Some (Conversation.id (conversationAt env w)) |}.

(** Whether a settled call is a failure for the relay, and with which
    message: a rejection, or a body without [success] or without [data]. *)
Definition failureOf (settled : AxiosResult (ApiResponse.t ChatData.t))
  : option jsString :=
  match settled with
  | Rejected serverMessage =>
      Some (orElse serverMessage (lit "Failed to send message"))
  | Resolved r =>
      match ApiResponse.success r, ApiResponse.data r with
      | true, Some _ => None
      | _, _ => Some (orElse (ApiResponse.error r) (lit "Failed to get response"))
      end
  end.


(** The text shown for a failed send. *)
Definition apologyFor (failure : jsString) : jsString :=
  lit "I apologize, but I encountered an error: "
  ++ failure ++ lit ". Please try again.".


(** The messages of the current conversation ([[]] when there is none). *)
Definition currentMessages (s : AppState.t) : list ChatMessage.t :=
  match AppState.currentConversation s with
  | Some c => Conversation.messages c
  | None => []
  end.

(** *** The other calls of services/api.ts, and [checkConnection] *)

(** What the other endpoints settle to, each with the milliseconds taken:
    GET /health, POST /register, GET /conversation/:userId and
    POST /user/preferences. *)
Record ApiEnv : Type := mkApiEnv {
  getHealth : N * AxiosResult (ApiResponse.t unit);
  postRegister :
    UserRegistration.RegistrationRequest
    -> N * AxiosResult (ApiResponse.t User.t);
  getConversationOf :
    jsString -> N * AxiosResult (ApiResponse.t (list Conversation.t));
  postPreferences :
    jsString -> UserPreferences.t -> N * AxiosResult (ApiResponse.t unit)
}.

(** The body every method of [apiService] shares: await the call, hand
    back [response.data]; a rejection is rethrown as
    [new Error(error.response?.data?.message || fallback)]. *)
Definition settle {T} (fallback : jsString) (call : N * AxiosResult T)
  : M T :=
  fun w =>
    let w1 := mkWorld (store w) (clock w + call.1) (requests w) in
    match call.2 with
    | Resolved data => (Returned data, w1)
    | Rejected serverMessage =>
        (Thrown (mkError (orElse serverMessage fallback)), w1)
    end.

Definition healthCheck (api : ApiEnv) : M (ApiResponse.t unit) :=
  settle (lit "Health check failed") (getHealth api).

Definition registerUser (api : ApiEnv)
    (userData : UserRegistration.RegistrationRequest)
  : M (ApiResponse.t User.t) :=
  settle (lit "Registration failed") (postRegister api userData).

Definition getConversation (api : ApiEnv) (userId : jsString)
  : M (ApiResponse.t (list Conversation.t)) :=
  settle (lit "Failed to get conversation") (getConversationOf api userId).

Definition updateUserPreferences (api : ApiEnv) (userId : jsString)
    (preferences : UserPreferences.t) : M (ApiResponse.t unit) :=
  settle (lit "Failed to update preferences")
    (postPreferences api userId preferences).

(** [checkConnection]: the value it gives to [setIsConnected] is what the
    computation returns. *)
Definition checkConnection (api : ApiEnv) : M bool :=
  fun w =>
    match healthCheck api w with
    | (Returned _, w1) =>
        (Returned true,
         mkWorld (AppStore.clearError (store w1)) (clock w1) (requests w1))
    | (Thrown _, w1) =>
        (Returned false,
         mkWorld
           (AppStore.setError
              (Some (lit "Failed to connect to the server. Please check if the backend is running."))
              (store w1))
           (clock w1) (requests w1))
    end.

(** [hasMessages]: what shows the Export and Clear buttons. *)
Definition hasMessages (s : AppState.t) : bool :=
  (0 <? length (currentMessages s))%nat.

(** The props the component hands to [ChatInput]. *)
Definition chatInputProps (isConnected : bool) (s : AppState.t)
  : ChatInput.Props :=
  {| ChatInput.isLoading := AppState.isLoading s;
     ChatInput.disabled := negb isConnected |}.

End ChatInterface.

(* ===================================================================== *)
(** ** frontend/src/App.tsx *)
(* ===================================================================== *)

Module App.
Import Js ChatInterface.

(** What [localStorage.getItem('renewable-energy-app-store')] holds, as far
    as [initializeApp] tells it apart: nothing (or the empty string); text
    that makes [JSON.parse] or the read of [state.user] throw; or a parsed
    store in which [state?.user] is truthy or not. *)
Inductive Stored : Type :=
| NoItem
| Unreadable
| Parsed (hasUser : bool).

(** The world of the component: the store and clock, and its
    [isInitialized] cell. *)
Record State : Type := mkState {
  world : World;
  isInitialized : bool
}.

Definition onStore (f : AppState.t -> AppState.t) (st : State) : State :=
  mkState (mkWorld (f (store (world st))) (clock (world st))
             (requests (world st)))
          (isInitialized st).

Definition initializeApp (stored : Stored) (st : State) : State :=
  let st1 := onStore (AppStore.setLoading true) st in
  let st2 :=
    match stored with
    | Parsed true =>
        (* setIsInitialized(true); setLoading(false); return *)
        onStore (AppStore.setLoading false) (mkState (world st1) true)
    | Parsed false | NoItem => mkState (world st1) true
    | Unreadable =>
        onStore
          (AppStore.setError (Some (lit "Failed to initialize application")))
          st1
    end in
  (* finally *)
  onStore (AppStore.setLoading false) st2.

Definition handleUserRegistration (api : ApiEnv)
    (userData : UserRegistration.RegistrationRequest) : M unit :=
  tryCatchFinally
    (act (AppStore.setLoading true);;
     act AppStore.clearError;;
     response ← registerUser api userData;
     match ApiResponse.success response, ApiResponse.data response with
     | true, Some user => act (AppStore.setUser (Some user))
     | _, _ =>
         throw (mkError (orElse (ApiResponse.error response)
                                (lit "Registration failed")))
     end)
    (fun error =>
       act (AppStore.setError
              (Some (orElse (Some (errorMessage error))
                            (lit "Failed to register user. Please try again."))));;
       throw error)
    (act (AppStore.setLoading false)).

(** What the component renders. *)
Inductive Screen : Type := LoadingScreen | RegistrationScreen | ChatScreen.

Definition render (st : State) : Screen :=
  if negb (isInitialized st) then LoadingScreen
  else if AppState.user (store (world st)) is Some _ then ChatScreen
  else RegistrationScreen.

End App.

(* ===================================================================== *)
(** ** backend/database_schema.sql *)
(* ===================================================================== *)

Module Schema.

(** Column types. A column without NOT NULL is an [option]. *)
Abbreviation uuid := N.
Abbreviation text := string.
Abbreviation jsonb := string.
Abbreviation timestamptz := Z.

(** The odd part of a mantissa, with the exponent it leaves. *)
Fixpoint oddPart (m : positive) (e : Z) : positive * Z :=
  match m with
  | xO m' => oddPart m' (e + 1)%Z
  | _ => (m, e)
  end.

(** A number a pgvector value can hold: a 4-byte float (24 bits of
    mantissa, exponents from -149, below 2^128) that is neither NaN nor
    infinite. *)
Definition isFloat4 (x : float) : bool :=
  match Prim2SF x with
  | S754_zero _ => true
  | S754_finite _ m e =>
      let '(m', e') := oddPart m e in
      (Z.pos (Pos.size m') <=? 24)%Z && (-149 <=? e')%Z
      && (e' + Z.pos (Pos.size m') <=? 128)%Z
  | S754_infinity _ | S754_nan => false
  end.

Record float4 : Type := mkFloat4 {
  float4_value : float;
  float4_ok : isFloat4 float4_value = true
}.

(** A pgvector value: its components. How text or numbers of another type
    are turned into such a value is pgvector's input function, not the
    schema's. *)
Abbreviation vector := (list float4).

Module users.
Record row : Type := mk {
  id : uuid;
  email : text;
  name : option text;
  created_at : option timestamptz;
  updated_at : option timestamptz
}.
End users.

Module projects.
Record row : Type := mk {
  id : uuid;
  user_id : option uuid;
  name : text;
  description : option text;
  market : option text;
  location : option text;
  owner : option text;
  status : option text;
  metadata : option jsonb;
  created_at : option timestamptz;
  updated_at : option timestamptz
}.
End projects.

Module documents.
Record row : Type := mk {
  id : uuid;
  user_id : option uuid;
  project_id : option uuid;
  file_name : text;
  file_path : text;
  file_size : option Z;
  file_type : option text;
  source_type : text;
  source_id : option text;
  processing_status : option text;
  chunk_count : option Z;
  metadata : option jsonb;
  created_at : option timestamptz;
  processed_at : option timestamptz;
  error_message : option text
}.
End documents.

Module document_chunks.
Record row : Type := mk {
  id : uuid;
  user_id : option uuid;
  document_id : option uuid;
  project_id : option uuid;
  chunk_index : Z;
  content : text;
  embedding : option vector;
  token_count : option Z;
  metadata : option jsonb;
  created_at : option timestamptz
}.
End document_chunks.

Module conversation_contexts.
Record row : Type := mk {
  id : uuid;
  user_id : option uuid;
  conversation_id : text;
  query : text;
  retrieved_chunks : option (list uuid);
  response : option text;
  context_usage_score : option float;
  created_at : option timestamptz
}.
End conversation_contexts.

(** The contents of the five tables. *)
Record Database : Type := mkDatabase {
  t_users : list users.row;
  t_projects : list projects.row;
  t_documents : list documents.row;
  t_document_chunks : list document_chunks.row;
  t_conversation_contexts : list conversation_contexts.row
}.

(** *** Row level security

    The four policies are the same expression, [auth.uid() = user_id],
    declared [FOR ALL] with [USING] only: it filters the rows a statement
    sees and, for lack of a [WITH CHECK], it is also the check on the rows
    a statement writes. *)

(** A table under one of the policies: its rows have a [user_id]. *)
Class Owned (R : Type) : Type := user_id_of : R -> option uuid.

#[global] Instance projects_owned : Owned projects.row := projects.user_id.
#[global] Instance documents_owned : Owned documents.row := documents.user_id.
#[global] Instance document_chunks_owned : Owned document_chunks.row :=
  document_chunks.user_id.
#[global] Instance conversation_contexts_owned
  : Owned conversation_contexts.row := conversation_contexts.user_id.

(** SQL [=]: NULL when either side is NULL. *)
Definition sql_eq (a b : option uuid) : option bool :=
  match a, b with
  | Some x, Some y => Some (x =? y)
  | _, _ => None
  end.

(** [USING (auth.uid() = user_id)]; [auth_uid] is NULL when the request
    carries no authenticated user. *)
Definition policy {R} `{Owned R} (auth_uid : option uuid) (r : R) : option bool :=
  sql_eq auth_uid (user_id_of r).

(** A row passes a policy when the expression is true; false and NULL
    both fail. *)
Definition passes (v : option bool) : bool :=
  match v with Some true => true | _ => false end.

Definition allowed {R} `{Owned R} (auth_uid : option uuid) (r : R) : bool :=
  passes (policy auth_uid r).

(** The statements a client can run on one table. *)
Inductive Statement (R : Type) : Type :=
| Select (where_ : R -> bool)
| Insert (values : list R)
| Update (where_ : R -> bool) (set_ : R -> R)
| Delete (where_ : R -> bool).
Arguments Select {R}.
Arguments Insert {R}.
Arguments Update {R}.
Arguments Delete {R}.

Inductive Reply (R : Type) : Type :=
| Rows (rs : list R)
| Affected (n : nat)
| PolicyViolation.
Arguments Rows {R}.
Arguments Affected {R}.
Arguments PolicyViolation {R}.

(** What row level security makes of one statement on a table it is
    enabled on, run for [auth_uid]: the rows the policy lets the statement
    see, and its check on the rows the statement writes. A write whose new
    row fails the check aborts the statement and leaves the table as it
    was. The keys, the column types, the trigger and the cascades of the
    schema come on top of this in [Statements.exec]. *)
Definition run {R} `{Owned R} (auth_uid : option uuid) (st : Statement R)
    (table : list R) : Reply R * list R :=
  match st with
  | Select w =>
      (Rows (List.filter (fun r => allowed auth_uid r && w r) table), table)
  | Insert vs =>
      if forallb (allowed auth_uid) vs
      then (Affected (length vs), table ++ vs)
      else (PolicyViolation, table)
  | Update w f =>
      let hit r := allowed auth_uid r && w r in
      if forallb (fun r => allowed auth_uid (f r)) (List.filter hit table)
      then (Affected (length (List.filter hit table)),
            (fun r => if hit r then f r else r) <$> table)
      else (PolicyViolation, table)
  | Delete w =>
      let hit r := allowed auth_uid r && w r in
      (Affected (length (List.filter hit table)),
       List.filter (fun r => negb (hit r)) table)
  end.



End Schema.

(** *** Foreign keys with ON DELETE CASCADE

    Every [REFERENCES ... ON DELETE CASCADE] of the schema: deleting a row
    deletes the rows whose foreign key names it, and so on down. *)

Module Cascade.
Import Schema.

(** [x] is one of the keys in [ids]; a NULL column names no row. *)
Definition refersTo (ids : list uuid) (x : option uuid) : bool :=
  match x with
  | Some i => bool_decide (i ∈ ids)
  | None => false
  end.

(** Delete the documents for which [gone] holds; their chunks go with them
    ([document_chunks.document_id REFERENCES documents(id)]). *)
Definition deleteDocumentsWhere (gone : documents.row -> bool) (db : Database)
  : Database :=
  let ids := documents.id <$> List.filter gone (t_documents db) in
  mkDatabase (t_users db) (t_projects db)
    (List.filter (fun d => negb (bool_decide (documents.id d ∈ ids)))
       (t_documents db))
    (List.filter (fun c => negb (refersTo ids (document_chunks.document_id c)))
       (t_document_chunks db))
    (t_conversation_contexts db).

(** Delete the projects for which [gone] holds; with them go the documents
    and the chunks whose [project_id] names them, and the chunks of those
    documents. *)
Definition deleteProjectsWhere (gone : projects.row -> bool) (db : Database)
  : Database :=
  let ids := projects.id <$> List.filter gone (t_projects db) in
  let db1 :=
    deleteDocumentsWhere (fun d => refersTo ids (documents.project_id d)) db in
  mkDatabase (t_users db1)
    (List.filter (fun p => negb (bool_decide (projects.id p ∈ ids)))
       (t_projects db1))
    (t_documents db1)
    (List.filter (fun c => negb (refersTo ids (document_chunks.project_id c)))
       (t_document_chunks db1))
    (t_conversation_contexts db1).

(** Delete the users for which [gone] holds; every table references
    [users(id)], so their projects, documents, chunks and conversation
    contexts go, each with what hangs below it. *)
Definition deleteUsersWhere (gone : users.row -> bool) (db : Database)
  : Database :=
  let ids := users.id <$> List.filter gone (t_users db) in
  let db1 :=
    deleteProjectsWhere (fun p => refersTo ids (projects.user_id p)) db in
  let db2 :=
    deleteDocumentsWhere (fun d => refersTo ids (documents.user_id d)) db1 in
  mkDatabase
    (List.filter (fun u => negb (bool_decide (users.id u ∈ ids))) (t_users db2))
    (t_projects db2)
    (t_documents db2)
    (List.filter (fun c => negb (refersTo ids (document_chunks.user_id c)))
       (t_document_chunks db2))
    (List.filter
       (fun x => negb (refersTo ids (conversation_contexts.user_id x)))
       (t_conversation_contexts db2)).

(** A delete statement on one of the referenced tables, by primary key. *)
Inductive DeleteStep : Type :=
| DeleteUser (id : uuid)
| DeleteProject (id : uuid)
| DeleteDocument (id : uuid).

Definition step (s : DeleteStep) (db : Database) : Database :=
  match s with
  | DeleteUser u => deleteUsersWhere (fun r => bool_decide (users.id r = u)) db
  | DeleteProject p =>
      deleteProjectsWhere (fun r => bool_decide (projects.id r = p)) db
  | DeleteDocument d =>
      deleteDocumentsWhere (fun r => bool_decide (documents.id r = d)) db
  end.

(** The keys present in a table. *)
Definition userIds (db : Database) : list uuid := users.id <$> t_users db.
Definition projectIds (db : Database) : list uuid :=
  projects.id <$> t_projects db.
Definition documentIds (db : Database) : list uuid :=
  documents.id <$> t_documents db.

(** A foreign key column is sound when it is NULL or names a present row. *)
Definition fk (ids : list uuid) (x : option uuid) : Prop :=
  match x with
  | Some i => i ∈ ids
  | None => True
  end.

(** Referential integrity: the seven foreign keys of the schema. *)
Record Integrity (db : Database) : Prop := mkIntegrity {
  projects_user :
    Forall (fun p => fk (userIds db) (projects.user_id p)) (t_projects db);
  documents_user :
    Forall (fun d => fk (userIds db) (documents.user_id d)) (t_documents db);
  documents_project :
    Forall (fun d => fk (projectIds db) (documents.project_id d))
      (t_documents db);
  chunks_user :
    Forall (fun c => fk (userIds db) (document_chunks.user_id c))
      (t_document_chunks db);
  chunks_document :
    Forall (fun c => fk (documentIds db) (document_chunks.document_id c))
      (t_document_chunks db);
  chunks_project :
    Forall (fun c => fk (projectIds db) (document_chunks.project_id c))
      (t_document_chunks db);
  contexts_user :
    Forall (fun x => fk (userIds db) (conversation_contexts.user_id x))
      (t_conversation_contexts db)
}.

(** The keys a step removed from a table. *)
Definition removed (before after : list uuid) : list uuid :=
  List.filter (fun i => negb (bool_decide (i ∈ after))) before.

(** The rows [rows'] keep their references alive: a key of [ids] that one
    of them names through [col] is still in [ids']. *)
Definition keepsRefs {A} (col : A -> option uuid) (rows' : list A)
    (ids ids' : list uuid) : Prop :=
  forall r i, r ∈ rows' -> col r = Some i -> i ∈ ids -> i ∈ ids'.

(** [db'] is what is left of [db]: no table gained a row, and no row that
    is left names, through any of the seven foreign keys, a row that went. *)
Record Stable (db db' : Database) : Prop := mkStable {
  sub_users : t_users db' ⊆ t_users db;
  sub_projects : t_projects db' ⊆ t_projects db;
  sub_documents : t_documents db' ⊆ t_documents db;
  sub_chunks : t_document_chunks db' ⊆ t_document_chunks db;
  sub_contexts : t_conversation_contexts db' ⊆ t_conversation_contexts db;
  keeps_projects_user :
    keepsRefs projects.user_id (t_projects db') (userIds db) (userIds db');
  keeps_documents_user :
    keepsRefs documents.user_id (t_documents db') (userIds db) (userIds db');
  keeps_documents_project :
    keepsRefs documents.project_id (t_documents db')
      (projectIds db) (projectIds db');
  keeps_chunks_user :
    keepsRefs document_chunks.user_id (t_document_chunks db')
      (userIds db) (userIds db');
  keeps_chunks_document :
    keepsRefs document_chunks.document_id (t_document_chunks db')
      (documentIds db) (documentIds db');
  keeps_chunks_project :
    keepsRefs document_chunks.project_id (t_document_chunks db')
      (projectIds db) (projectIds db');
  keeps_contexts_user :
    keepsRefs conversation_contexts.user_id (t_conversation_contexts db')
      (userIds db) (userIds db')
}.

End Cascade.

(** *** The trigger that stamps [projects.updated_at] *)

Module Triggers.
Import Schema.

(** [update_updated_at_column()]: [NEW.updated_at = NOW()]. *)
Definition update_updated_at_column (now : timestamptz) (new : projects.row)
  : projects.row :=
  {| projects.id := projects.id new;
     projects.user_id := projects.user_id new;
     projects.name := projects.name new;
     projects.description := projects.description new;
     projects.market := projects.market new;
     projects.location := projects.location new;
     projects.owner := projects.owner new;
     projects.status := projects.status new;
     projects.metadata := projects.metadata new;
     projects.created_at := projects.created_at new;
     projects.updated_at := Some now |}.

(** A statement on [projects]: [update_projects_updated_at] fires BEFORE
    UPDATE, FOR EACH ROW, so an UPDATE writes what the trigger returns.
    The other statements fire no trigger. *)
Definition runOnProjects (now : timestamptz) (auth_uid : option uuid)
    (st : Statement projects.row) (table : list projects.row)
  : Reply projects.row * list projects.row :=
  match st with
  | Update w f =>
      run auth_uid (Update w (fun r => update_updated_at_column now (f r)))
        table
  | _ => run auth_uid st table
  end.

End Triggers.

(** *** The embedding column and the embedding configuration *)

Module Embedding.
Import Schema.

(** [embedding VECTOR(1536)] *)
Definition columnDimension : nat := 1536.

(** The column's type modifier: pgvector refuses to write a vector whose
    number of components is not the column's; NULL is accepted (the column
    has no NOT NULL). *)
Definition fitsColumn (v : option vector) : bool :=
  match v with
  | Some v => bool_decide (length v = columnDimension)
  | None => true
  end.

(** Every stored embedding has the column's dimension. *)
Definition wellDimensioned (db : Database) : Prop :=
  Forall (fun c => forall v, document_chunks.embedding c = Some v ->
                             length v = columnDimension)
    (t_document_chunks db).

(** An environment file: its assignments, in order. *)
Abbreviation envFile := (list (string * string)).

Definition getenv (k : string) (e : envFile) : option string :=
  snd <$> List.find (fun kv => bool_decide (kv.1 = k)) e.

(** A setting read as a number. *)
Definition getenvNat (k : string) (e : envFile) : option nat :=
  v ← getenv k e; Nat.of_uint <$> DecimalString.NilZero.uint_of_string v.

(** The "RAG SYSTEM CONFIGURATION" block of the environment template of
    the RAG system. *)
Definition ragEnvTemplate : envFile :=
  [ ("EMBEDDING_MODEL", "text-embedding-3-small");
    ("EMBEDDING_DIMENSION", "1536");
    ("MAX_CHUNK_SIZE", "1000");
    ("CHUNK_OVERLAP", "200");
    ("MAX_FILE_SIZE_MB", "50");
    ("DEFAULT_SIMILARITY_THRESHOLD", "0.7");
    ("MAX_SEARCH_RESULTS", "10") ]%string.

End Embedding.

(** *** One statement on one table

    A statement as PostgreSQL runs it against the schema for a client role
    that holds the table privileges and is subject to row security
    (grants are not part of the schema file): the policies of the table,
    the BEFORE UPDATE trigger of [projects], the type of the embedding
    column, the PRIMARY KEY and UNIQUE indexes, the foreign keys, and their
    ON DELETE CASCADE. The statements are SELECT, INSERT, UPDATE and DELETE
    with a condition on the row of the table; rows are given whole,
    defaults filled in. Foreign keys are checked, and cascades run, without
    regard to the policies, as PostgreSQL does. *)

Module Statements.
Import Schema Cascade Triggers Embedding.

(** The five tables, each with the type of its rows. *)
Inductive Table : Type -> Type :=
| Users : Table users.row
| Projects : Table projects.row
| Documents : Table documents.row
| DocumentChunks : Table document_chunks.row
| ConversationContexts : Table conversation_contexts.row.

Definition rowsOf {R} (t : Table R) (db : Database) : list R :=
  match t in Table R return list R with
  | Users => t_users db
  | Projects => t_projects db
  | Documents => t_documents db
  | DocumentChunks => t_document_chunks db
  | ConversationContexts => t_conversation_contexts db
  end.

Definition setRows {R} (t : Table R) (rows : list R) (db : Database)
  : Database :=
  match t in Table R return list R -> Database with
  | Users => fun rows =>
      mkDatabase rows (t_projects db) (t_documents db)
        (t_document_chunks db) (t_conversation_contexts db)
  | Projects => fun rows =>
      mkDatabase (t_users db) rows (t_documents db)
        (t_document_chunks db) (t_conversation_contexts db)
  | Documents => fun rows =>
      mkDatabase (t_users db) (t_projects db) rows
        (t_document_chunks db) (t_conversation_contexts db)
  | DocumentChunks => fun rows =>
      mkDatabase (t_users db) (t_projects db) (t_documents db)
        rows (t_conversation_contexts db)
  | ConversationContexts => fun rows =>
      mkDatabase (t_users db) (t_projects db) (t_documents db)
        (t_document_chunks db) rows
  end rows.

(** [id UUID PRIMARY KEY] *)
Definition key {R} (t : Table R) : R -> uuid :=
  match t in Table R return R -> uuid with
  | Users => users.id
  | Projects => projects.id
  | Documents => documents.id
  | DocumentChunks => document_chunks.id
  | ConversationContexts => conversation_contexts.id
  end.

(** The unique indexes: two rows clash when a table cannot hold both, that
    is when they have the same [id] or, in [users], the same [email]. *)
Definition clash {R} (t : Table R) : R -> R -> bool :=
  match t in Table R return R -> R -> bool with
  | Users => fun a b =>
      (users.id a =? users.id b) || String.eqb (users.email a) (users.email b)
  | Projects => fun a b => projects.id a =? projects.id b
  | Documents => fun a b => documents.id a =? documents.id b
  | DocumentChunks => fun a b => document_chunks.id a =? document_chunks.id b
  | ConversationContexts => fun a b =>
      conversation_contexts.id a =? conversation_contexts.id b
  end.

(** The [user_id] column of the tables with ENABLE ROW LEVEL SECURITY;
    [users] is not one of them. *)
Definition owner {R} (t : Table R) : option (Owned R) :=
  match t in Table R return option (Owned R) with
  | Users => None
  | Projects => Some projects_owned
  | Documents => Some documents_owned
  | DocumentChunks => Some document_chunks_owned
  | ConversationContexts => Some conversation_contexts_owned
  end.

(** The rows of a table a statement run for [auth_uid] can see. *)
Definition visible {R} (t : Table R) (auth_uid : option uuid) : R -> bool :=
  match owner t with
  | Some col => allowed (H := col) auth_uid
  | None => fun _ => true
  end.

(** What the BEFORE UPDATE triggers make of a new row. *)
Definition stamped {R} (t : Table R) (now : timestamptz) : R -> R :=
  match t in Table R return R -> R with
  | Projects => update_updated_at_column now
  | _ => fun r => r
  end.

(** A statement on a table without row level security. *)
Definition plain {R} (st : Statement R) (table : list R)
  : Reply R * list R :=
  match st with
  | Select w => (Rows (List.filter w table), table)
  | Insert vs => (Affected (length vs), table ++ vs)
  | Update w f =>
      (Affected (length (List.filter w table)),
       (fun r => if w r then f r else r) <$> table)
  | Delete w =>
      (Affected (length (List.filter w table)),
       List.filter (fun r => negb (w r)) table)
  end.

(** The statement as the policies and the trigger of its table shape it,
    before keys, types and cascades. *)
Definition secured {R} (now : timestamptz) (auth_uid : option uuid)
    (t : Table R) : Statement R -> list R -> Reply R * list R :=
  match t in Table R return Statement R -> list R -> Reply R * list R with
  | Users => plain
  | Projects => runOnProjects now auth_uid
  | Documents => run auth_uid
  | DocumentChunks => run auth_uid
  | ConversationContexts => run auth_uid
  end.

(** The type of the columns: [embedding VECTOR(1536)] is the one column
    whose type does not take every value of the row type. *)
Definition typed {R} (t : Table R) : R -> bool :=
  match t in Table R return R -> bool with
  | DocumentChunks => fun c => fitsColumn (document_chunks.embedding c)
  | _ => fun _ => true
  end.

(** INSERT puts the rows in one after the other; the unique indexes refuse
    a row that clashes with one already there. *)
Fixpoint fits {R} (clashes : R -> R -> bool) (table values : list R) : bool :=
  match values with
  | [] => true
  | v :: rest =>
      negb (existsb (clashes v) table) && fits clashes (table ++ [v]) rest
  end.

(** UPDATE rewrites the rows it hits one after the other, in the order of
    the table; the unique indexes refuse a new row that clashes with
    another row as the table stands at that moment ([done]: the rows
    before it, rewritten or not; [todo]: the rows after it, as they
    were). *)
Fixpoint fitsUpdate {R} (clashes : R -> R -> bool) (hit : R -> bool)
    (new : R -> R) (done todo : list R) : bool :=
  match todo with
  | [] => true
  | r :: rest =>
      if hit r
      then negb (existsb (clashes (new r)) (done ++ rest))
           && fitsUpdate clashes hit new (done ++ [new r]) rest
      else fitsUpdate clashes hit new (done ++ [r]) rest
  end.

(** A foreign key column is satisfied when it is NULL or names a row that
    is there. *)
Definition present (ids : list uuid) (x : option uuid) : bool :=
  match x with
  | Some i => bool_decide (i ∈ ids)
  | None => true
  end.

(** The three keys the foreign keys of the schema reference. *)
Inductive Referenced : Type := users_id | projects_id | documents_id.

#[global] Instance Referenced_eq_dec : EqDecision Referenced.
Proof. solve_decision. Defined.

Definition keysOf (p : Referenced) (db : Database) : list uuid :=
  match p with
  | users_id => userIds db
  | projects_id => projectIds db
  | documents_id => documentIds db
  end.

(** The key of a table as the foreign keys know it; nothing references
    [document_chunks] or [conversation_contexts]. *)
Definition keyOf {R} (t : Table R) : option Referenced :=
  match t with
  | Users => Some users_id
  | Projects => Some projects_id
  | Documents => Some documents_id
  | DocumentChunks | ConversationContexts => None
  end.

(** The seven foreign keys of the schema, table by table: the value of
    each REFERENCES column of a row, with the key it references. *)
Definition references {R} (t : Table R) : R -> list (option uuid * Referenced) :=
  match t in Table R return R -> list (option uuid * Referenced) with
  | Users => fun _ => []
  | Projects => fun p => [(projects.user_id p, users_id)]
  | Documents => fun d =>
      [(documents.user_id d, users_id);
       (documents.project_id d, projects_id)]
  | DocumentChunks => fun c =>
      [(document_chunks.user_id c, users_id);
       (document_chunks.document_id c, documents_id);
       (document_chunks.project_id c, projects_id)]
  | ConversationContexts => fun x =>
      [(conversation_contexts.user_id x, users_id)]
  end.

(** The check on an inserted row. *)
Definition refsOk {R} (t : Table R) (db : Database) (r : R) : bool :=
  forallb (fun c => present (keysOf c.2 db) c.1) (references t r).

(** The check on a rewritten row: only the columns the update changed are
    looked up. *)
Definition refsOkAfter {R} (t : Table R) (db : Database) (old new : R)
  : bool :=
  forallb
    (fun c => bool_decide (c.2.1 = c.1.1) || present (keysOf c.2.2 db) c.2.1)
    (zip (references t old) (references t new)).

(** The row [r] of table [t] names the key [k] of [p]. *)
Definition names {R} (t : Table R) (p : Referenced) (k : uuid) (r : R) : bool :=
  bool_decide ((Some k, p) ∈ references t r).

(** Some row of the database names the key [k] of [p]. *)
Definition referenced (p : Referenced) (db : Database) (k : uuid) : bool :=
  existsb (names Users p k) (t_users db)
  || existsb (names Projects p k) (t_projects db)
  || existsb (names Documents p k) (t_documents db)
  || existsb (names DocumentChunks p k) (t_document_chunks db)
  || existsb (names ConversationContexts p k) (t_conversation_contexts db).

(** The foreign keys say nothing ON UPDATE, which is NO ACTION: when the
    statement is over, a key that a rewritten row gave up is held by a row
    of the table or named by no row. *)
Definition keysKept {R} (t : Table R) (db : Database) (hit : R -> bool)
    (new : R -> R) (before after : list R) : bool :=
  match keyOf t with
  | Some p =>
      forallb
        (fun r => bool_decide (key t (new r) = key t r)
                  || bool_decide (key t r ∈ key t <$> after)
                  || negb (referenced p db (key t r)))
        (List.filter hit before)
  | None => true
  end.

(** DELETE of the rows for which [gone] holds, with the cascades. *)
Definition deleteWhere {R} (t : Table R) : (R -> bool) -> Database -> Database :=
  match t in Table R return (R -> bool) -> Database -> Database with
  | Users => deleteUsersWhere
  | Projects => deleteProjectsWhere
  | Documents => deleteDocumentsWhere
  | DocumentChunks => fun gone db =>
      setRows DocumentChunks
        (List.filter (fun c => negb (gone c)) (t_document_chunks db)) db
  | ConversationContexts => fun gone db =>
      setRows ConversationContexts
        (List.filter (fun x => negb (gone x)) (t_conversation_contexts db)) db
  end.

(** What the client gets back: rows, a count of rows, or an error. Which
    error PostgreSQL raises when a statement breaks several rules depends
    on the order it evaluates in and is not told apart here. *)
Inductive Result (R : Type) : Type :=
| Returned (rs : list R)
| Count (n : nat)
| Error.
Arguments Returned {R}.
Arguments Count {R}.
Arguments Error {R}.

Definition ofReply {R} (reply : Reply R) : Result R :=
  match reply with
  | Rows rs => Returned rs
  | Affected n => Count n
  | PolicyViolation => Error
  end.

Definition accepted {R} (reply : Reply R) : bool :=
  match reply with
  | PolicyViolation => false
  | _ => true
  end.

(** One statement on table [t], run at time [now] for [auth_uid]. A table
    is the list of its rows in the order a scan meets them. A statement
    that ends in an error changes nothing. *)
Definition exec {R} (now : timestamptz) (auth_uid : option uuid)
    (t : Table R) (st : Statement R) (db : Database) : Result R * Database :=
  let table := rowsOf t db in
  let layer := secured now auth_uid t st table in
  match st with
  | Select _ => (ofReply layer.1, db)
  | Insert values =>
      if forallb (typed t) values
         && accepted layer.1
         && fits (clash t) table values
         && forallb (refsOk t db) values
      then (ofReply layer.1, setRows t layer.2 db)
      else (Error, db)
  | Update w f =>
      let hit r := visible t auth_uid r && w r in
      let new r := stamped t now (f r) in
      if forallb (fun r => typed t (new r)) (List.filter hit table)
         && accepted layer.1
         && fitsUpdate (clash t) hit new [] table
         && forallb (fun r => refsOkAfter t db r (new r)) (List.filter hit table)
         && keysKept t db hit new table layer.2
      then (ofReply layer.1, setRows t layer.2 db)
      else (Error, db)
  | Delete w =>
      (ofReply layer.1,
       deleteWhere t (fun r => visible t auth_uid r && w r) db)
  end.

(** The primary keys hold: no two rows of a table have the same [id]. *)
Definition keysUnique (db : Database) : Prop :=
  forall R (t : Table R), NoDup (key t <$> rowsOf t db).

(** Every row refers, through every foreign key, to a row that is
    there. *)
Definition sound (db : Database) : Prop :=
  forall R (t : Table R) r x p k,
    r ∈ rowsOf t db -> (x, p) ∈ references t r -> x = Some k ->
    k ∈ keysOf p db.

(** A statement with what it is run on and for. *)
Record Query : Type := mkQuery {
  q_now : timestamptz;
  q_auth_uid : option uuid;
  q_row : Type;
  q_table : Table q_row;
  q_statement : Statement q_row
}.

Definition execQuery (q : Query) (db : Database) : Database :=
  snd (exec (q_now q) (q_auth_uid q) (q_table q) (q_statement q) db).

(** The database as the schema creates it. *)
Definition created : Database := mkDatabase [] [] [] [] [].

(** The database after the statements [qs], run one after the other on the
    database as created. *)
Definition after (qs : list Query) : Database :=
  foldl (fun db q => execQuery q db) created qs.

End Statements.

(* ===================================================================== *)
(** ** The retriever *)
(* ===================================================================== *)

Module Retriever.

Abbreviation projectId := N.

(** Modelled from the spec: a chunk as the vector store holds it (section
    3): its id, its document, its project, its zero-based sequence index,
    its text and its embedding. *)
Record Chunk : Type := mkChunk {
  chunkId : N;
  documentId : N;
  project : projectId;
  sequenceIndex : nat;
  chunkText : string;
  embedding : list Q
}.

(** Modelled from the spec: the one error [retrieve] is said to fail
    with. *)
Inductive RetrieveError : Type := InvalidArgument.

Section Retrieve.

(** The two capabilities the retriever consumes: the embedding provider and
    the similarity the vector store scores with. *)
Variable embed : string -> list Q.
Variable similarity : list Q -> list Q -> Q.

(** Modelled from the spec: the order of the results (section 4.3),
    descending score, equal scores by ascending sequence index. *)
Definition ranksBefore (a b : Chunk * Q) : bool :=
  match (a.2 ?= b.2)%Q with
  | Gt => true
  | Eq => (sequenceIndex a.1 <=? sequenceIndex b.1)%nat
  | Lt => false
  end.

(** Modelled from the spec: sorting into that order, by insertion. *)
Fixpoint insertRanked (x : Chunk * Q) (l : list (Chunk * Q))
  : list (Chunk * Q) :=
  match l with
  | [] => [x]
  | y :: rest => if ranksBefore x y then x :: l else y :: insertRanked x rest
  end.

Definition rank (l : list (Chunk * Q)) : list (Chunk * Q) :=
  foldr insertRanked [] l.

(** Modelled from the spec: the vector store's [query(vector, k, filter)]
    (section 6), the [k] nearest of the chunks the filter admits, with
    their scores. The store is an external capability; here it is the list
    of chunks it holds. *)
Definition storeQuery (corpus : list Chunk) (v : list Q) (k : nat)
    (within : Chunk -> bool) : list (Chunk * Q) :=
  take k (rank ((fun c => (c, similarity v (embedding c)))
                <$> List.filter within corpus)).

(** Modelled from the spec: the steps of section 4.3 after the checks on
    the arguments, that is the [k] nearest chunks of the scope, without
    those scoring under the threshold, in rank order. *)
Definition search (corpus : list Chunk) (query : string)
    (project_scope : gset projectId) (k : nat) (similarity_threshold : Q)
  : list (Chunk * Q) :=
  rank
    (List.filter (fun r => Qle_bool similarity_threshold r.2)
       (storeQuery corpus (embed query) k
          (fun c => bool_decide (project c ∈ project_scope)))).

(** Modelled from the spec: [retrieve] of section 4.3, whose code
    (the RAG engine of the backend) is not among the sources. An empty
    scope answers with the empty sequence whatever else is asked (section 8:
    "always"); [k <= 0] is an [InvalidArgument]; otherwise embed the query,
    ask the store for the [k] nearest chunks of the scope, drop those
    scoring under the threshold, and order what is left. *)
Definition retrieve (corpus : list Chunk) (query : string)
    (project_scope : gset projectId) (k : Z) (similarity_threshold : Q)
  : RetrieveError + list (Chunk * Q) :=
  if bool_decide (project_scope = ∅) then inr []
  else if (k <=? 0)%Z then inl InvalidArgument
  else inr (search corpus query project_scope (Z.to_nat k) similarity_threshold).

End Retrieve.

End Retriever.

(* ===================================================================== *)
(** ** Concrete scenarios the properties are tried on *)
(* ===================================================================== *)

Module Scenario.
Import Js ChatInterface.

Definition alice : User.t :=
  {| User.user_id := lit "u-1";
     User.name := lit "Alice";
     User.email := lit "alice@example.org";
     User.interests := None;
     User.registered_at := None;
     User.preferences := None;
     User.id := None |}.

(** Alice is registered, nothing has been said yet; the clock reads 1000. *)
Definition fresh : World :=
  mkWorld (AppStore.setUser (Some alice) AppStore.initialState) 1000 [].

(** A backend that cannot be reached. *)
Definition unreachable : Env :=
  mkEnv (fun _ => (30, Rejected None)) (lit "k3x9q0a1z").

(** A backend that answers [success] with the given data after 30 ms. *)
Definition answering (d : ChatData.t) : Env :=
  mkEnv (fun _ => (30, Resolved (ApiResponse.mk true (Some d) None None)))
        (lit "k3x9q0a1z").

(** A stand-in for [Number::toString] in the scenarios. *)
Definition showNumber (x : number) : jsString :=
  if PrimFloat.eqb x 5%float then lit "5" else lit "NaN".

(** One project with one document of two chunks, next to a stranger's
    project with its own document and chunk. *)
Definition sample : Schema.Database :=
  let project i u :=
    Schema.projects.mk i (Some u) "p"%string None None None None None None
      None None in
  let document i u p :=
    Schema.documents.mk i (Some u) (Some p) "f.pdf"%string "/f.pdf"%string
      None None "upload"%string None None None None None None None in
  let chunk i u d p k :=
    Schema.document_chunks.mk i (Some u) (Some d) (Some p) k "text"%string
      None None None None in
  Schema.mkDatabase
    [Schema.users.mk 1 "a@x.org"%string None None None;
     Schema.users.mk 2 "b@x.org"%string None None None]
    [project 10 1; project 20 2]
    [document 100 1 10; document 200 2 20]
    [chunk 1000 1 100 10 0%Z; chunk 1001 1 100 10 1%Z; chunk 2000 2 200 20 0%Z]
    [].

(** The corpus of the example of section 8 of the specification: project 1
    holds one document of three chunks; a chunk's embedding is the single
    number that is its similarity to the query. *)
Definition corpus8 : list Retriever.Chunk :=
  [ Retriever.mkChunk 1 7 1 0 "first" [9 # 10];
    Retriever.mkChunk 2 7 1 1 "second" [1 # 10];
    Retriever.mkChunk 3 7 1 2 "third" [5 # 10] ]%Q.

Definition embed8 (_ : string) : list Q := [].

Definition similarity8 (_ v : list Q) : Q := List.hd 0%Q v.

End Scenario.

(* ===================================================================== *)
(** * Properties *)
(* ===================================================================== *)

(** ** Strings and regular expressions *)

Module JsFacts.
Import Js.

Example lit_example : lit "N/A" = [78; 47; 65].
Proof. reflexivity. Qed.

Example trim_example : trim (lit "  hi there	 ") = lit "hi there".
Proof. reflexivity. Qed.

Example trim_nbsp : trim [160; 120; 8232] = [120].
Proof. reflexivity. Qed.

Lemma trimStart_nil s :
  trimStart s = [] <-> Forall (fun c => isWhiteSpace c = true) s.
Proof.
  induction s as [|c s IH]; simpl.
  - split; [constructor | done].
  - destruct (isWhiteSpace c) eqn:E.
    + rewrite IH. split; [by constructor | by inversion 1].
    + split; [done | inversion 1 as [|? ? Hc _]; by rewrite E in Hc].
Qed.

Lemma trimStart_head s c t : trimStart s = c :: t -> isWhiteSpace c = false.
Proof.
  induction s as [|d s IH]; simpl; [done|].
  destruct (isWhiteSpace d) eqn:E; [done | congruence].
Qed.

Lemma trim_nil s : trim s = [] <-> Forall (fun c => isWhiteSpace c = true) s.
Proof.
  unfold trim, trimEnd. split.
  - intros H. apply (f_equal reverse) in H.
    rewrite reverse_involutive in H. cbn in H.
    apply trimStart_nil in H. rewrite Forall_reverse in H.
    destruct (trimStart s) as [|c t] eqn:E; [by apply trimStart_nil|].
    apply trimStart_head in E.
    inversion H as [|? ? Hc _]; by rewrite E in Hc.
  - intros H. apply trimStart_nil in H. by rewrite H.
Qed.

Lemma truthy_true s : truthy s = true <-> s <> [].
Proof. by destruct s. Qed.

Lemma truthy_length s : truthy s = (0 <? length s)%nat.
Proof. by destruct s. Qed.

(** The matcher decides membership in the language. *)

(** Inversion of [Lang], one constructor of [regex] at a time. *)

Lemma Lang_void s : Lang Void s <-> False.
Proof. split; [inversion 1 | done]. Qed.

Lemma Lang_eps s : Lang Eps s <-> s = [].
Proof. split; [by inversion 1 | intros ->; constructor]. Qed.

Lemma Lang_class p s : Lang (Class p) s <-> exists c, s = [c] /\ p c = true.
Proof.
  split; [inversion 1; subst; eauto | intros (c & -> & ?); by constructor].
Qed.

Lemma Lang_seq r1 r2 s :
  Lang (Seq r1 r2) s <-> exists s1 s2, s = s1 ++ s2 /\ Lang r1 s1 /\ Lang r2 s2.
Proof.
  split.
  - inversion 1; subst. eauto.
  - intros (s1 & s2 & -> & H1 & H2). by constructor.
Qed.

Lemma Lang_alt r1 r2 s : Lang (Alt r1 r2) s <-> Lang r1 s \/ Lang r2 s.
Proof.
  split.
  - inversion 1; subst; auto.
  - intros [H|H]; [by apply LangAltL | by apply LangAltR].
Qed.

Lemma nullable_Lang r : nullable r = true <-> Lang r [].
Proof.
  induction r as [| |p|r1 IH1 r2 IH2|r1 IH1 r2 IH2|r IH]; simpl.
  - by rewrite Lang_void.
  - by rewrite Lang_eps.
  - rewrite Lang_class. split; [done | by intros (c & ? & _)].
  - rewrite andb_true_iff, IH1, IH2, Lang_seq. split.
    + intros [H1 H2]. by exists [], [].
    + intros (s1 & s2 & E & H1 & H2). symmetry in E.
      by apply app_eq_nil in E as [-> ->].
  - by rewrite orb_true_iff, IH1, IH2, Lang_alt.
  - split; [constructor | done].
Qed.

Lemma Lang_star_cons r c s :
  Lang (Star r) (c :: s) ->
  exists s1 s2, s = s1 ++ s2 /\ Lang r (c :: s1) /\ Lang (Star r) s2.
Proof.
  intros H. remember (Star r) as r' eqn:Er. remember (c :: s) as cs eqn:Es.
  revert s Es.
  induction H as [| | | | | |r0 s1 s2 H1 _ H2 IH2]; try discriminate.
  injection Er as ->. intros s Es.
  destruct s1 as [|d s1]; simpl in Es.
  - by apply IH2.
  - injection Es as -> <-. by exists s1, s2.
Qed.

Lemma deriv_Lang c r s : Lang (deriv c r) s <-> Lang r (c :: s).
Proof.
  revert s.
  induction r as [| |p|r1 IH1 r2 IH2|r1 IH1 r2 IH2|r IH]; intros s; simpl.
  - by rewrite !Lang_void.
  - by rewrite Lang_void, Lang_eps.
  - rewrite Lang_class. destruct (p c) eqn:E.
    + rewrite Lang_eps. split; [intros ->; eauto|].
      by intros (d & [= -> ->] & _).
    + rewrite Lang_void. split; [done|].
      intros (d & [= -> ->] & Hd). by rewrite E in Hd.
  - rewrite Lang_alt, !Lang_seq. split.
    + intros [(s1 & s2 & -> & H1 & H2)|H].
      * exists (c :: s1), s2. by rewrite <- IH1.
      * destruct (nullable r1) eqn:E; [|by apply Lang_void in H].
        exists [], (c :: s). by rewrite <- nullable_Lang, <- IH2.
    + intros ([|d s1] & s2 & E & H1 & H2); simpl in E.
      * subst s2. right. apply nullable_Lang in H1. rewrite H1. by apply IH2.
      * injection E as <- ->. left. exists s1, s2. by rewrite IH1.
  - by rewrite !Lang_alt, IH1, IH2.
  - rewrite Lang_seq. split.
    + intros (s1 & s2 & -> & H1 & H2). apply IH in H1.
      by apply (LangStarStep _ (c :: s1) s2).
    + intros (s1 & s2 & -> & H1 & H2)%Lang_star_cons.
      exists s1, s2. by rewrite IH.
Qed.

Lemma fullMatch_Lang r s : fullMatch r s = true <-> Lang r s.
Proof.
  unfold fullMatch. revert r.
  induction s as [|c s IH]; intros r; simpl.
  - apply nullable_Lang.
  - rewrite IH. apply deriv_Lang.
Qed.

Lemma Lang_star_class p s :
  Lang (Star (Class p)) s <-> Forall (fun c => p c = true) s.
Proof.
  split.
  - intros H. remember (Star (Class p)) as r eqn:Er.
    induction H as [| | | | | |r0 s1 s2 H1 _ H2 IH2]; try discriminate.
    + constructor.
    + injection Er as ->. apply Lang_class in H1 as (c & -> & Hc).
      constructor; [done | by apply IH2].
  - induction 1 as [|c s Hc _ IH]; [constructor|].
    apply (LangStarStep _ [c] s); [by constructor | done].
Qed.

Lemma Lang_plus_class p s :
  Lang (Plus (Class p)) s <-> s <> [] /\ Forall (fun c => p c = true) s.
Proof.
  unfold Plus. rewrite Lang_seq. split.
  - intros (s1 & s2 & -> & (c & -> & Hc)%Lang_class & H2%Lang_star_class).
    split; [done | by constructor].
  - intros [Hne H]. destruct s as [|c s]; [done|].
    inversion H as [|? ? Hc Hs]; subst. exists [c], s.
    split; [done|]. split; [by constructor | by apply Lang_star_class].
Qed.

Lemma Lang_chr c s : Lang (Chr c) s <-> s = [c].
Proof.
  unfold Chr. rewrite Lang_class. split.
  - by intros (d & -> & ->%N.eqb_eq).
  - intros ->. exists c. by rewrite N.eqb_refl.
Qed.

(** What [emailPattern] accepts: [local@domain.tld], each part non-empty
    and free of white space and of [@]. *)
Lemma emailPattern_shape s :
  test emailPattern s = true <->
  exists a b c,
    s = a ++ [64] ++ b ++ [46] ++ c
    /\ a <> [] /\ b <> [] /\ c <> []
    /\ Forall (fun x => notSpaceNorAt x = true) (a ++ b ++ c).
Proof.
  unfold test, emailPattern; simpl. rewrite fullMatch_Lang.
  rewrite Lang_seq. split.
  - intros (a & s1 & -> & Ha & H1).
    apply Lang_seq in H1 as (x & s2 & -> & Hx & H2). apply Lang_chr in Hx as ->.
    apply Lang_seq in H2 as (b & s3 & -> & Hb & H3).
    apply Lang_seq in H3 as (y & c & -> & Hy & Hc). apply Lang_chr in Hy as ->.
    apply Lang_plus_class in Ha as [? ?], Hb as [? ?], Hc as [? ?].
    exists a, b, c. rewrite !Forall_app. done.
  - intros (a & b & c & -> & ? & ? & ? & H).
    rewrite !Forall_app in H. destruct H as (? & ? & ?).
    exists a, ([64] ++ b ++ [46] ++ c). split; [done|].
    split; [by apply Lang_plus_class|].
    apply Lang_seq. exists [64], (b ++ [46] ++ c).
    split; [done|]. split; [by apply Lang_chr|].
    apply Lang_seq. exists b, ([46] ++ c).
    split; [done|]. split; [by apply Lang_plus_class|].
    apply Lang_seq. exists [46], c.
    split; [done|]. split; [by apply Lang_chr | by apply Lang_plus_class].
Qed.

Example email_accepts : test emailPattern (lit "a@b.co") = true.
Proof. reflexivity. Qed.

Example email_rejects_space : test emailPattern (lit "a b@c.de") = false.
Proof. reflexivity. Qed.

Example email_rejects_no_dot : test emailPattern (lit "a@b") = false.
Proof. reflexivity. Qed.

(** A string the pattern accepts does not trim to the empty string. *)
Lemma emailPattern_truthy s :
  test emailPattern s = true -> truthy (trim s) = true.
Proof.
  intros (a & b & c & -> & Ha & _ & _ & H)%emailPattern_shape.
  apply truthy_true. intros Hnil%trim_nil.
  destruct a as [|x a]; [done|].
  inversion Hnil as [|? ? Hx _]; subst.
  inversion H as [|? ? Hx' _]; subst.
  unfold notSpaceNorAt in Hx'. rewrite Hx in Hx'. done.
Qed.

End JsFacts.

(** ** The chat input *)

Module ChatInputSpec.
Import Js JsFacts ChatInput.

Example handleSubmit_sends :
  handleSubmit (mkProps false false) (mkState (lit "  hello ") None [])
  = mkState [] None [lit "hello"].
Proof. reflexivity. Qed.

Example handleSubmit_blank :
  handleSubmit (mkProps false false) (mkState (lit "   ") None [])
  = mkState (lit "   ") None [].
Proof. reflexivity. Qed.

Example handleSubmit_loading :
  handleSubmit (mkProps true false) (mkState (lit "hello") None [])
  = mkState (lit "hello") None [].
Proof. reflexivity. Qed.

(** The guard of [handleSubmit] is the negation of [canSend]. *)
Lemma canSend_guard p st :
  negb (truthy (trim (message st))) || isLoading p || disabled p
  = negb (canSend p st).
Proof.
  unfold canSend. rewrite <- truthy_length.
  by destruct (truthy _), (isLoading p), (disabled p).
Qed.

Lemma canSend_true p st :
  canSend p st = true <->
  trim (message st) <> [] /\ isLoading p = false /\ disabled p = false.
Proof.
  unfold canSend. rewrite <- truthy_length, !andb_true_iff, !negb_true_iff.
  rewrite truthy_true. tauto.
Qed.

(** C9. [handleSubmit] calls [onSendMessage] exactly once, with the trimmed
    message, if and only if the trimmed message is not empty and neither
    [isLoading] nor [disabled] holds, and it then resets the input to the
    empty string; for an input of white space only, or while loading or
    disabled, [onSendMessage] is not called and the input stays as it
    was. *)
Theorem handleSubmit_sends_iff_sendable (p : Props) (st : State) :
  let sendable :=
    trim (message st) <> [] /\ isLoading p = false /\ disabled p = false in
  (sendable <->
     sendCalls (handleSubmit p st) = sendCalls st ++ [trim (message st)])
  /\ (sendable -> message (handleSubmit p st) = [])
  /\ (~ sendable -> handleSubmit p st = st)
  /\ (sendable <-> canSend p st = true).
Proof.
  intros sendable. subst sendable. rewrite <- canSend_true.
  unfold handleSubmit. rewrite canSend_guard.
  destruct (canSend p st) eqn:E; simpl.
  - repeat split; auto. intros []; done.
  - repeat split; auto; try done.
    intros H. apply (f_equal length) in H. rewrite length_app in H.
    simpl in H. lia.
Qed.

End ChatInputSpec.

(** ** The registration form *)

Module UserRegistrationSpec.
Import Js JsFacts UserRegistration.

Example validateForm_accepts :
  fst (validateForm (mkState (mkRegistrationRequest (lit " Al ") (lit "al@example.org"))
       (mkErrors None None) [])) = true.
Proof. reflexivity. Qed.

Example validateForm_short_name :
  errors (snd (validateForm (mkState (mkRegistrationRequest (lit " A ") (lit "al@example.org"))
       (mkErrors None None) [])))
  = mkErrors (Some (lit "Name must be at least 2 characters")) None.
Proof. reflexivity. Qed.

Example validateForm_both_fail :
  validateForm (mkState (mkRegistrationRequest (lit "  ") (lit "al@example"))
       (mkErrors None None) [])
  = (false,
     mkState (mkRegistrationRequest (lit "  ") (lit "al@example"))
       (mkErrors (Some (lit "Name is required"))
                 (Some (lit "Please enter a valid email address"))) []).
Proof. reflexivity. Qed.

Example handleSubmit_rejected :
  registerCalls (handleSubmit (mkState (mkRegistrationRequest (lit "Al") (lit "nobody"))
       (mkErrors None None) [])) = [].
Proof. reflexivity. Qed.

(** The two branches on the name come to one test on its trimmed length. *)
Lemma nameError_None st :
  nameError (errors (snd (validateForm st))) = None <->
  (2 <= length (trim (name (formData st))))%nat.
Proof.
  unfold validateForm; simpl.
  destruct (trim (name (formData st))) as [|c [|d t]]; simpl;
    split; (done || lia).
Qed.

Lemma emailError_None st :
  emailError (errors (snd (validateForm st))) = None <->
  test emailPattern (email (formData st)) = true.
Proof.
  unfold validateForm; simpl.
  destruct (test emailPattern (email (formData st))) eqn:E.
  - apply emailPattern_truthy in E. by rewrite E.
  - destruct (truthy _); by simpl.
Qed.

Lemma validateForm_true st :
  fst (validateForm st) = true <->
  nameError (errors (snd (validateForm st))) = None
  /\ emailError (errors (snd (validateForm st))) = None.
Proof.
  unfold validateForm, keysLength; simpl.
  repeat match goal with |- context [if ?b then _ else _] => destruct b end;
    simpl; split; (done || by intros []).
Qed.

(** C10. [validateForm] returns true if and only if the trimmed name has at
    least 2 characters and the email matches
    [^[^\s@]+@[^\s@]+\.[^\s@]+$]; it records an error message for exactly
    the fields that fail; and [handleSubmit] calls [onRegister] (with the
    form data) only when [validateForm] returns true. *)
Theorem validateForm_iff_fields_valid (st : State) :
  let nameOk := (2 <= length (trim (name (formData st))))%nat in
  let emailOk := test emailPattern (email (formData st)) = true in
  let '(ok, st1) := validateForm st in
  (ok = true <-> nameOk /\ emailOk)
  /\ (is_Some (nameError (errors st1)) <-> ~ nameOk)
  /\ (is_Some (emailError (errors st1)) <-> ~ emailOk)
  /\ formData st1 = formData st
  /\ registerCalls (handleSubmit st)
     = (if ok then registerCalls st ++ [formData st] else registerCalls st).
Proof.
  intros nameOk emailOk. subst nameOk emailOk.
  pose proof (validateForm_true st) as Hok.
  pose proof (nameError_None st) as Hn.
  pose proof (emailError_None st) as He.
  unfold handleSubmit.
  destruct (validateForm st) as [ok st1] eqn:Ev. simpl in *.
  assert (formData st1 = formData st /\ registerCalls st1 = registerCalls st)
    as [Hf Hr] by (unfold validateForm in Ev; by injection Ev as _ <-).
  rewrite <- Hn, <- He, <- !not_eq_None_Some.
  repeat split; try tauto.
  destruct ok; simpl; by rewrite ?Hf, ?Hr.
Qed.

End UserRegistrationSpec.

(** ** The store *)

Module AppStoreSpec.
Import Js AppStore.

Lemma assign_whole s : assign s (whole s) = s.
Proof. by destruct s. Qed.

Lemma replaceById_length c convs : length (replaceById c convs) = length convs.
Proof. unfold replaceById. by rewrite length_fmap. Qed.

Lemma replaceById_lookup c convs i :
  replaceById c convs !! i
  = (fun conv =>
       if bool_decide (Conversation.id conv = Conversation.id c)
       then c else conv) <$> convs !! i.
Proof. unfold replaceById. by rewrite list_lookup_fmap. Qed.

(** C8. [addMessage m] leaves the state as it is when there is no current
    conversation. Otherwise the current conversation gets [m] appended to
    its messages (the earlier ones kept, in order), every entry of
    [conversations] with the same id is replaced by that updated
    conversation, and [user], [isLoading], [error] and every other
    conversation stay as they were. *)
Theorem addMessage_appends_and_frames (now : Date) (m : ChatMessage.t)
    (s : AppState.t) :
  match AppState.currentConversation s with
  | None => addMessage now m s = s
  | Some cur =>
      let s' := addMessage now m s in
      exists cur',
        AppState.currentConversation s' = Some cur'
        /\ Conversation.messages cur' = Conversation.messages cur ++ [m]
        /\ Conversation.id cur' = Conversation.id cur
        /\ Conversation.userId cur' = Conversation.userId cur
        /\ Conversation.createdAt cur' = Conversation.createdAt cur
        /\ length (AppState.conversations s')
           = length (AppState.conversations s)
        /\ (forall i conv,
              AppState.conversations s !! i = Some conv ->
              AppState.conversations s' !! i
              = Some (if bool_decide (Conversation.id conv = Conversation.id cur)
                      then cur' else conv))
        /\ AppState.user s' = AppState.user s
        /\ AppState.isLoading s' = AppState.isLoading s
        /\ AppState.error s' = AppState.error s
  end.
Proof.
  unfold addMessage, set.
  destruct (AppState.currentConversation s) as [cur|] eqn:E.
  - simpl. eexists. split; [reflexivity|]. simpl.
    repeat split; try done.
    + apply replaceById_length.
    + intros i conv Hi. by rewrite replaceById_lookup, Hi.
  - apply assign_whole.
Qed.

End AppStoreSpec.
(** ** The chat relay *)

Module ChatInterfaceSpec.
Import Js JsFacts ChatInterface Scenario.

#[local] Opaque lit decimal trim.

Lemma orElse_truthy a d : truthy d = true -> truthy (orElse a d) = true.
Proof.
  intros Hd. destruct a as [s|]; simpl; [|done].
  by destruct (truthy s) eqn:E.
Qed.

Lemma failureOf_truthy settled fm :
  failureOf settled = Some fm -> truthy fm = true.
Proof.
  destruct settled as [r|sm]; simpl.
  - destruct (ApiResponse.success r), (ApiResponse.data r);
      intros [= <-]; by apply orElse_truthy.
  - intros [= <-]. by apply orElse_truthy.
Qed.

(** What one send does, from a state with a registered user and a message
    that is not blank: one request goes out, the user's message and one
    reply are appended to the current conversation, and the reply is either
    the apology for the failure or the text picked from the response. *)
Lemma handleSendMessage_run show env msg w u :
  AppState.user (store w) = Some u ->
  truthy (trim msg) = true ->
  let req := requestAt env w u msg in
  let run := handleSendMessage show env msg w in
  fst run = Returned tt
  /\ requests (snd run) = requests w ++ [req]
  /\ clock (snd run) = clock w + fst (postChat env req)
  /\ AppState.user (store (snd run)) = Some u
  /\ AppState.isLoading (store (snd run)) = false
  /\ (exists conv,
        AppState.currentConversation (store (snd run)) = Some conv
        /\ Conversation.id conv = Conversation.id (conversationAt env w))
  /\ exists userMsg reply,
       currentMessages (store (snd run))
       = currentMessages (store w) ++ [userMsg; reply]
       /\ ChatMessage.content userMsg = msg
       /\ ChatMessage.sender userMsg = ChatMessage.user
       /\ ChatMessage.sender reply = ChatMessage.assistant
       /\ match snd (postChat env req) with
          | Rejected sm =>
              let fm := orElse sm (lit "Failed to send message") in
              AppState.error (store (snd run)) = Some fm
              /\ ChatMessage.content reply = apologyFor fm
              /\ ChatMessage.mathResponse reply = None
          | Resolved r =>
              match ApiResponse.success r, ApiResponse.data r with
              | true, Some d =>
                  AppState.error (store (snd run)) = None
                  /\ ChatMessage.content reply
                     = pickContent d
                       ++ calculationDetails show (ChatData.math_response d)
                  /\ ChatMessage.mathResponse reply = ChatData.math_response d
              | _, _ =>
                  let fm :=
                    orElse (ApiResponse.error r) (lit "Failed to get response") in
                  AppState.error (store (snd run)) = Some fm
                  /\ ChatMessage.content reply = apologyFor fm
                  /\ ChatMessage.mathResponse reply = None
              end
          end.
Proof.
  intros Hu Ht req run. subst req run.
  unfold handleSendMessage, requestAt, conversationAt, currentMessages.
  destruct w as [s t reqs]. simpl in Hu.
  unfold mbind, M_bind, getStore; simpl. rewrite Hu, Ht; simpl.
  unfold tryCatchFinally, mbind, M_bind, mret, M_ret, act, addMessage,
    createNewConversation, dateNow, sendMessage, throw; simpl.
  unfold mbind, M_bind, mret, M_ret, dateNow, act; simpl.
  destruct (AppState.currentConversation s) as [cur|] eqn:Ec; simpl.
  all: rewrite ?Ec; simpl.
  all: match goal with
       | |- context [postChat ?e ?r] =>
           destruct (postChat e r) as [elapsed [r0|sm]] eqn:Ep
       end; simpl.
  all: try (destruct (ApiResponse.success r0), (ApiResponse.data r0) as [d|]);
    simpl.
  all: unfold AppStore.addMessage, AppStore.clearError, AppStore.setLoading,
         AppStore.setError, AppStore.addConversation, AppStore.set,
         AppStore.assign; simpl; rewrite ?Ec; simpl.
  all: rewrite ?orElse_truthy by (by vm_compute).
  all: repeat match goal with
         | |- _ /\ _ => split
         | |- exists conv, Some _ = Some conv /\ _ => eexists; split; [reflexivity|]
         | |- exists userMsg reply, _ =>
             do 2 eexists; rewrite <- ?app_assoc; simpl
         end; try done.
Qed.


(** Without a registered user, or for a blank message, a send does
    nothing. *)
Lemma handleSendMessage_guard show env msg w :
  AppState.user (store w) = None \/ truthy (trim msg) = false ->
  handleSendMessage show env msg w = (Returned tt, w).
Proof.
  unfold handleSendMessage, mbind, M_bind, getStore; simpl.
  intros [H|H]; rewrite H; [done|].
  by destruct (AppState.user (store w)).
Qed.


Example pickContent_main :
  pickContent (ChatData.mk (Some (lit "Solar works.")) None) = lit "Solar works.".
Proof. reflexivity. Qed.

Example pickContent_explanation :
  pickContent
    (ChatData.mk (Some [])
       (Some (MathResponse.mk (Some 5%float) (Some (lit "add"))
                (Some (lit "2 + 3 is 5")) (Some (lit "N/A")) 1%float None None)))
  = lit "2 + 3 is 5".
Proof. reflexivity. Qed.

Example calculationDetails_line :
  calculationDetails showNumber
    (Some (MathResponse.mk (Some 5%float) (Some (lit "add"))
             (Some (lit "2 + 3 is 5")) (Some (lit "N/A")) 1%float None
             (Some (lit "kWh"))))
  = [10; 10] ++ lit "Calculation: add = 5 kWh".
Proof. reflexivity. Qed.

(** C2, as stated, fails: when the backend cannot be reached the handler
    does not fail with [UpstreamUnavailable]. It returns normally, sets the
    error of the store to 'Failed to send message', and shows an assistant
    message made of a fixed apology around that text. *)
Lemma unreachable_backend_is_not_UpstreamUnavailable :
  let run :=
    handleSendMessage showNumber unreachable (lit "How much sun?") fresh in
  failureOf
    (snd (postChat unreachable
            (requestAt unreachable fresh alice (lit "How much sun?"))))
  = Some (lit "Failed to send message")
  /\ fst run = Returned tt
  /\ AppState.error (store (snd run)) = Some (lit "Failed to send message")
  /\ AppState.error (store (snd run)) <> Some (lit "UpstreamUnavailable")
  /\ last (currentMessages (store (snd run)))
     = Some {| ChatMessage.id := lit "msg_1030_error";
               ChatMessage.content :=
                 lit "I apologize, but I encountered an error: Failed to send message. Please try again.";
               ChatMessage.sender := ChatMessage.assistant;
               ChatMessage.timestamp := 1030;
               ChatMessage.mathResponse := None |}.
Proof. vm_compute. repeat split; discriminate. Qed.

(** C2, amended. When the call of a chat request fails (the HTTP call is
    rejected, or the body lacks [success] or [data]), the handler itself
    returns normally and reports the failure: the [error] of the store is
    the message of the failure (never empty), [isLoading] is back to false,
    and after the user's message one assistant message is appended whose
    text is the apology quoting that message; nothing of a response is
    shown. *)
Theorem failed_call_is_reported_with_apology
    (show : number -> jsString) (env : Env) (msg : jsString) (w : World)
    (u : User.t) (fm : jsString) :
  AppState.user (store w) = Some u ->
  truthy (trim msg) = true ->
  failureOf (snd (postChat env (requestAt env w u msg))) = Some fm ->
  let run := handleSendMessage show env msg w in
  fst run = Returned tt
  /\ AppState.error (store (snd run)) = Some fm
  /\ fm <> []
  /\ AppState.isLoading (store (snd run)) = false
  /\ exists userMsg reply,
       currentMessages (store (snd run))
       = currentMessages (store w) ++ [userMsg; reply]
       /\ ChatMessage.content userMsg = msg
       /\ ChatMessage.sender userMsg = ChatMessage.user
       /\ ChatMessage.sender reply = ChatMessage.assistant
       /\ ChatMessage.content reply = apologyFor fm
       /\ ChatMessage.mathResponse reply = None.
Proof.
  intros Hu Ht Hf run. subst run.
  pose proof (failureOf_truthy _ _ Hf) as Hne%truthy_true.
  destruct (handleSendMessage_run show env msg w u Hu Ht)
    as (Hret & _ & _ & _ & Hl & _ & userMsg & reply & Hm & Hc & Hs & Hr & H).
  destruct (snd (postChat env (requestAt env w u msg))) as [r|sm];
    simpl in Hf.
  - destruct (ApiResponse.success r), (ApiResponse.data r);
      simplify_eq; destruct H as (He & Hy & Hz); eauto 15.
  - simplify_eq. destruct H as (He & Hy & Hz); eauto 15.
Qed.

Lemma failed_call_is_reported_with_apology_witness :
  AppState.error
    (store (snd (handleSendMessage showNumber unreachable
                   (lit "How much sun?") fresh)))
  = Some (lit "Failed to send message").
Proof.
  refine (proj1 (proj2
    (failed_call_is_reported_with_apology showNumber unreachable
       (lit "How much sun?") fresh alice (lit "Failed to send message")
       _ _ _))); vm_compute; reflexivity.
Defined.

(** C3, as stated, fails: the request that goes out holds [message],
    [userId] and [conversationId]; it has no [project_scope], [use_rag],
    [conversation_id] or [history]. A successful response may hold the text
    alone: the reply carries no math data (hence no confidence), and the
    response type has no citations. *)
Lemma chat_request_lacks_project_scope :
  let env := answering (ChatData.mk (Some (lit "Solar works.")) None) in
  let run := handleSendMessage showNumber env (lit "How much sun?") fresh in
  (ChatRequest.toJSON <$> requests (snd run))
  = [JObject [(lit "message", JString (lit "How much sun?"));
              (lit "userId", JString (lit "u-1"));
              (lit "conversationId", JString (lit "conv_1000_k3x9q0a1z"))]]
  /\ Forall (fun req =>
       Forall (fun k => jsonGet k (ChatRequest.toJSON req) = None)
         [lit "project_scope"; lit "use_rag"; lit "conversation_id";
          lit "history"])
       (requests (snd run))
  /\ AppState.error (store (snd run)) = None
  /\ last (currentMessages (store (snd run)))
     = Some {| ChatMessage.id := lit "msg_1030_assistant";
               ChatMessage.content := lit "Solar works.";
               ChatMessage.sender := ChatMessage.assistant;
               ChatMessage.timestamp := 1030;
               ChatMessage.mathResponse := None |}.
Proof. vm_compute. repeat constructor. Qed.

(** C3, amended. Every chat call posts exactly one request, the object
    [{message, userId, conversationId}] with the text typed, the id of the
    user and the id of the conversation the exchange is filed under. The
    response is [{success, data?: {response, math_response?}, error?,
    message?}]; when it is successful, the reply shown is built from
    [response] and [math_response], and the [math_response] (which holds
    the confidence) is attached to the reply as it came. *)
Theorem chat_call_posts_message_userId_conversationId
    (show : number -> jsString) (env : Env) (msg : jsString) (w : World)
    (u : User.t) :
  AppState.user (store w) = Some u ->
  truthy (trim msg) = true ->
  let run := handleSendMessage show env msg w in
  exists req conv,
    requests (snd run) = requests w ++ [req]
    /\ AppState.currentConversation (store (snd run)) = Some conv
    /\ ChatRequest.toJSON req
       = JObject [(lit "message", JString msg);
                  (lit "userId", JString (User.user_id u));
                  (lit "conversationId", JString (Conversation.id conv))]
    /\ jsonKeys (ChatRequest.toJSON req)
       = [lit "message"; lit "userId"; lit "conversationId"]
    /\ forall (r : ApiResponse.t ChatData.t) (d : ChatData.t),
         snd (postChat env req) = Resolved r ->
         ApiResponse.success r = true ->
         ApiResponse.data r = Some d ->
         exists reply,
           last (currentMessages (store (snd run))) = Some reply
           /\ ChatMessage.sender reply = ChatMessage.assistant
           /\ ChatMessage.content reply
              = pickContent d
                ++ calculationDetails show (ChatData.math_response d)
           /\ ChatMessage.mathResponse reply = ChatData.math_response d.
Proof.
  intros Hu Ht run. subst run.
  destruct (handleSendMessage_run show env msg w u Hu Ht)
    as (_ & Hq & _ & _ & _ & (conv & Hcur & Hid) & userMsg & reply & Hm
        & _ & _ & Hr & H).
  exists (requestAt env w u msg), conv.
  split; [done|]. split; [done|].
  split; [by unfold ChatRequest.toJSON, requestAt; simpl; rewrite Hid|].
  split; [done|].
  intros r d Hp Hs Hd. rewrite Hp, Hs, Hd in H. destruct H as (_ & Hy & Hz).
  exists reply. rewrite Hm.
  split; [|done].
  by rewrite (last_app_cons _ _ userMsg), (last_cons_cons _ _ _).
Qed.

Lemma chat_call_posts_message_userId_conversationId_witness :
  exists req conv,
    requests (snd (handleSendMessage showNumber unreachable
                     (lit "How much sun?") fresh)) = [] ++ [req]
    /\ AppState.currentConversation
         (store (snd (handleSendMessage showNumber unreachable
                        (lit "How much sun?") fresh))) = Some conv
    /\ jsonKeys (ChatRequest.toJSON req)
       = [lit "message"; lit "userId"; lit "conversationId"].
Proof.
  destruct (chat_call_posts_message_userId_conversationId showNumber
              unreachable (lit "How much sun?") fresh alice eq_refl eq_refl)
    as (req & conv & H1 & H2 & _ & H4 & _).
  exists req, conv. auto.
Defined.




End ChatInterfaceSpec.
(** ** Lists filtered by a boolean test *)

Module ListFacts.

Lemma elem_of_filter_bool {A} (f : A -> bool) (l : list A) (x : A) :
  x ∈ List.filter f l <-> x ∈ l /\ f x = true.
Proof. rewrite !list_elem_of_In. apply filter_In. Qed.

Lemma Forall_forallb {A} (f : A -> bool) (l : list A) :
  forallb f l = true <-> Forall (fun x => f x = true) l.
Proof.
  rewrite forallb_forall, Forall_forall.
  by setoid_rewrite list_elem_of_In.
Qed.

End ListFacts.

(** ** Row level security *)

Module RlsSpec.
Import Schema ListFacts.

Section Table.
Context {R : Type} `{Owned R}.

(** The policy lets a row through exactly when its owner is the requester. *)
Lemma allowed_owner (u : uuid) (r : R) :
  allowed (Some u) r = true <-> user_id_of r = Some u.
Proof.
  unfold allowed, policy, sql_eq. destruct (user_id_of r) as [o|]; simpl.
  - destruct (u =? o) eqn:E.
    + apply N.eqb_eq in E as ->. done.
    + apply N.eqb_neq in E. split; [done | intros [= ->]; done].
  - done.
Qed.

(** Without an authenticated user no row gets through. *)
Lemma allowed_anonymous (r : R) : allowed None r = false.
Proof. done. Qed.





End Table.

Example select_sees_own_rows :
  let p (i : uuid) (o : option uuid) :=
    projects.mk i o "p"%string None None None None None None None None in
  fst (run (Some 7) (Select (fun _ => true)) [p 1 (Some 7); p 2 (Some 8); p 3 None])
  = Rows [p 1 (Some 7)].
Proof. reflexivity. Qed.

Example insert_for_other_refused :
  let p (i : uuid) (o : option uuid) :=
    projects.mk i o "p"%string None None None None None None None None in
  run (Some 7) (Insert [p 4 (Some 8)]) [p 1 (Some 7)]
  = (PolicyViolation, [p 1 (Some 7)]).
Proof. reflexivity. Qed.

End RlsSpec.

(** ** Cascading deletes *)

Module CascadeSpec.
Import Schema Cascade ListFacts Scenario.

Lemma refersTo_true ids x :
  refersTo ids x = true <-> exists i, x = Some i /\ i ∈ ids.
Proof.
  destruct x as [i|]; simpl.
  - rewrite bool_decide_eq_true. split; [eauto | by intros (? & [= <-] & ?)].
  - split; [done | by intros (? & ? & _)].
Qed.

Lemma refersTo_false ids i : refersTo ids (Some i) = false <-> i ∉ ids.
Proof. simpl. by rewrite bool_decide_eq_false. Qed.

Lemma elem_of_kept {A} (key : A -> uuid) (ids : list uuid) (l : list A) x :
  x ∈ List.filter (fun r => negb (bool_decide (key r ∈ ids))) l
  <-> x ∈ l /\ key x ∉ ids.
Proof.
  by rewrite elem_of_filter_bool, negb_true_iff, bool_decide_eq_false.
Qed.

Lemma elem_of_unreferring {A} (col : A -> option uuid) (ids : list uuid)
    (l : list A) x :
  x ∈ List.filter (fun r => negb (refersTo ids (col r))) l
  <-> x ∈ l /\ refersTo ids (col x) = false.
Proof. by rewrite elem_of_filter_bool, negb_true_iff. Qed.

(** The keys left after dropping the rows whose key is in [ids]. *)
Lemma keys_kept {A} (key : A -> uuid) (ids : list uuid) (l : list A) i :
  i ∈ key <$> List.filter (fun r => negb (bool_decide (key r ∈ ids))) l
  <-> i ∈ key <$> l /\ i ∉ ids.
Proof.
  rewrite !list_elem_of_fmap. split.
  - intros (r & -> & [Hr Hn]%elem_of_kept). eauto.
  - intros [(r & -> & Hr) Hn]. exists r. by rewrite elem_of_kept.
Qed.

(** The keys of the rows picked by [gone] are keys of the table. *)
Lemma keys_gone {A} (key : A -> uuid) (gone : A -> bool) (l : list A) r :
  r ∈ l -> gone r = true -> key r ∈ key <$> List.filter gone l.
Proof.
  intros Hr Hg. apply list_elem_of_fmap. exists r.
  by rewrite elem_of_filter_bool.
Qed.

Lemma keepsRefs_same {A} (col : A -> option uuid) rows ids :
  keepsRefs col rows ids ids.
Proof. by intros r i _ _ Hi. Qed.

Lemma Stable_refl db : Stable db db.
Proof. split; (done || apply keepsRefs_same). Qed.

Lemma keepsRefs_trans {A} (col : A -> option uuid) rows1 rows2 ids0 ids1 ids2 :
  rows2 ⊆ rows1 ->
  keepsRefs col rows1 ids0 ids1 -> keepsRefs col rows2 ids1 ids2 ->
  keepsRefs col rows2 ids0 ids2.
Proof. intros Hs H1 H2 r i Hr Hc Hi. eauto. Qed.

Lemma Stable_trans db0 db1 db2 :
  Stable db0 db1 -> Stable db1 db2 -> Stable db0 db2.
Proof.
  intros [] []. split;
    solve [ by etrans | by eapply keepsRefs_trans ].
Qed.

(** *** Deleting documents *)

Lemma deleteDocumentsWhere_gone gone db :
  Forall (fun d => gone d = false) (t_documents (deleteDocumentsWhere gone db)).
Proof.
  apply Forall_forall. intros d [Hd Hn]%elem_of_kept.
  destruct (gone d) eqn:E; [|done].
  destruct Hn. by apply keys_gone.
Qed.

Lemma deleteDocumentsWhere_stable gone db :
  Stable db (deleteDocumentsWhere gone db).
Proof.
  split; simpl; try done; try apply keepsRefs_same.
  - by intros d [? _]%elem_of_kept.
  - by intros c [? _]%elem_of_unreferring.
  - intros c i [_ Hc]%elem_of_unreferring Hi Hin.
    rewrite Hi in Hc. apply refersTo_false in Hc.
    unfold documentIds; simpl. by apply keys_kept.
Qed.

(** *** Deleting projects *)

Lemma deleteProjectsWhere_gone gone db :
  Forall (fun p => gone p = false) (t_projects (deleteProjectsWhere gone db)).
Proof.
  apply Forall_forall. intros p [Hp Hn]%elem_of_kept.
  destruct (gone p) eqn:E; [|done].
  destruct Hn. by apply keys_gone.
Qed.

Lemma deleteProjectsWhere_stable gone db :
  Stable db (deleteProjectsWhere gone db).
Proof.
  unfold deleteProjectsWhere.
  set (ids := projects.id <$> List.filter gone (t_projects db)).
  set (goneDoc := fun d => refersTo ids (documents.project_id d)).
  pose proof (deleteDocumentsWhere_gone goneDoc db) as Hdocs.
  rewrite Forall_forall in Hdocs.
  eapply Stable_trans; [apply (deleteDocumentsWhere_stable goneDoc)|].
  split; simpl; try done; try apply keepsRefs_same.
  - by intros p [? _]%elem_of_kept.
  - by intros c [? _]%elem_of_unreferring.
  - intros d i Hd Hi Hin. specialize (Hdocs d Hd). unfold goneDoc in Hdocs.
    rewrite Hi in Hdocs. apply refersTo_false in Hdocs.
    unfold projectIds; simpl. by apply keys_kept.
  - intros c i [_ Hc]%elem_of_unreferring Hi Hin.
    rewrite Hi in Hc. apply refersTo_false in Hc.
    unfold projectIds; simpl. by apply keys_kept.
Qed.

(** *** Deleting users *)

Lemma deleteUsersWhere_stable gone db : Stable db (deleteUsersWhere gone db).
Proof.
  unfold deleteUsersWhere.
  set (ids := users.id <$> List.filter gone (t_users db)).
  set (goneProject := fun p => refersTo ids (projects.user_id p)).
  set (goneDoc := fun d => refersTo ids (documents.user_id d)).
  set (db1 := deleteProjectsWhere goneProject db).
  pose proof (deleteProjectsWhere_gone goneProject db) as Hprojects.
  pose proof (deleteDocumentsWhere_gone goneDoc db1) as Hdocs.
  rewrite Forall_forall in Hprojects. rewrite Forall_forall in Hdocs.
  fold db1 in Hprojects.
  eapply Stable_trans; [apply (deleteProjectsWhere_stable goneProject)|].
  fold db1.
  eapply Stable_trans; [apply (deleteDocumentsWhere_stable goneDoc)|].
  split; simpl; try done; try apply keepsRefs_same.
  - by intros u [? _]%elem_of_kept.
  - by intros c [? _]%elem_of_unreferring.
  - by intros x [? _]%elem_of_unreferring.
  - intros p i Hp Hi Hin. specialize (Hprojects p Hp).
    unfold goneProject in Hprojects. rewrite Hi in Hprojects.
    apply refersTo_false in Hprojects.
    unfold userIds; simpl. by apply keys_kept.
  - intros d i Hd Hi Hin. specialize (Hdocs d Hd).
    unfold goneDoc in Hdocs. rewrite Hi in Hdocs.
    apply refersTo_false in Hdocs.
    unfold userIds; simpl. by apply keys_kept.
  - intros c i [_ Hc]%elem_of_unreferring Hi Hin.
    rewrite Hi in Hc. apply refersTo_false in Hc.
    unfold userIds; simpl. by apply keys_kept.
  - intros x i [_ Hx]%elem_of_unreferring Hi Hin.
    rewrite Hi in Hx. apply refersTo_false in Hx.
    unfold userIds; simpl. by apply keys_kept.
Qed.

Lemma step_stable s db : Stable db (step s db).
Proof.
  destruct s; simpl;
    [ apply deleteUsersWhere_stable
    | apply deleteProjectsWhere_stable
    | apply deleteDocumentsWhere_stable ].
Qed.

(** The key a step names is not left in its table. *)
Lemma step_deletes_key s db :
  match s with
  | DeleteUser u => u ∉ userIds (step s db)
  | DeleteProject p => p ∉ projectIds (step s db)
  | DeleteDocument d => d ∉ documentIds (step s db)
  end.
Proof.
  destruct s as [u|p|d]; simpl.
  - unfold userIds, deleteUsersWhere; simpl.
    intros [(r & -> & Hr)%list_elem_of_fmap Hn]%keys_kept.
    destruct Hn. apply (keys_gone users.id); [done|by apply bool_decide_eq_true].
  - unfold projectIds, deleteProjectsWhere; simpl.
    intros [(r & -> & Hr)%list_elem_of_fmap Hn]%keys_kept.
    destruct Hn.
    apply (keys_gone projects.id); [done|by apply bool_decide_eq_true].
  - unfold documentIds, deleteDocumentsWhere; simpl.
    intros [(r & -> & Hr)%list_elem_of_fmap Hn]%keys_kept.
    destruct Hn.
    apply (keys_gone documents.id); [done|by apply bool_decide_eq_true].
Qed.

(** A reference that is kept alive names no removed key. *)
Lemma keepsRefs_removed {A} (col : A -> option uuid) rows ids ids' :
  keepsRefs col rows ids ids' ->
  Forall (fun r => forall i, col r = Some i -> i ∉ removed ids ids') rows.
Proof.
  intros Hk. apply Forall_forall. intros r Hr i Hi.
  unfold removed. rewrite elem_of_filter_bool.
  rewrite negb_true_iff, bool_decide_eq_false.
  intros [Hin Hout]. apply Hout. by eapply Hk.
Qed.

Lemma keepsRefs_fk {A} (col : A -> option uuid) rows rows' ids ids' :
  rows' ⊆ rows -> keepsRefs col rows' ids ids' ->
  Forall (fun r => fk ids (col r)) rows ->
  Forall (fun r => fk ids' (col r)) rows'.
Proof.
  intros Hs Hk Hfk. rewrite Forall_forall in Hfk.
  apply Forall_forall. intros r Hr.
  specialize (Hfk r (Hs r Hr)). unfold fk in *.
  destruct (col r) as [i|] eqn:E; [|done]. by eapply Hk.
Qed.

(** What is left of a sound database is sound. *)
Lemma Stable_integrity db db' : Stable db db' -> Integrity db -> Integrity db'.
Proof.
  intros [] []. split; by eapply keepsRefs_fk.
Qed.

Example delete_project_takes_documents_and_chunks :
  let db' := step (DeleteProject 10) sample in
  projectIds db' = [20] /\ documentIds db' = [200]
  /\ document_chunks.id <$> t_document_chunks db' = [2000]
  /\ userIds db' = [1; 2].
Proof. vm_compute. done. Qed.

Example delete_user_takes_everything_owned :
  let db' := step (DeleteUser 1) sample in
  userIds db' = [2] /\ projectIds db' = [20] /\ documentIds db' = [200]
  /\ document_chunks.id <$> t_document_chunks db' = [2000].
Proof. vm_compute. done. Qed.

Example delete_document_takes_chunks :
  let db' := step (DeleteDocument 100) sample in
  documentIds db' = [200] /\ projectIds db' = [10; 20]
  /\ document_chunks.id <$> t_document_chunks db' = [2000].
Proof. vm_compute. done. Qed.

(** C5. Deletion cascades along the foreign keys: deleting a user deletes
    the user's projects, documents, chunks and conversation contexts;
    deleting a project deletes its documents and chunks; deleting a
    document deletes its chunks. So after every delete step the key deleted
    is gone, no chunk that is left names a document, project or user that
    the step removed (and the same for documents, projects and conversation
    contexts), and a database whose foreign keys were sound still has sound
    foreign keys. *)
Theorem cascade_leaves_no_dangling_reference (s : DeleteStep) (db : Database) :
  let db' := step s db in
  match s with
  | DeleteUser u => u ∉ userIds db'
  | DeleteProject p => p ∉ projectIds db'
  | DeleteDocument d => d ∉ documentIds db'
  end
  /\ Forall (fun c => forall i, document_chunks.document_id c = Some i ->
                      i ∉ removed (documentIds db) (documentIds db'))
       (t_document_chunks db')
  /\ Forall (fun c => forall i, document_chunks.project_id c = Some i ->
                      i ∉ removed (projectIds db) (projectIds db'))
       (t_document_chunks db')
  /\ Forall (fun c => forall i, document_chunks.user_id c = Some i ->
                      i ∉ removed (userIds db) (userIds db'))
       (t_document_chunks db')
  /\ Forall (fun d => forall i, documents.project_id d = Some i ->
                      i ∉ removed (projectIds db) (projectIds db'))
       (t_documents db')
  /\ Forall (fun d => forall i, documents.user_id d = Some i ->
                      i ∉ removed (userIds db) (userIds db'))
       (t_documents db')
  /\ Forall (fun p => forall i, projects.user_id p = Some i ->
                      i ∉ removed (userIds db) (userIds db'))
       (t_projects db')
  /\ Forall (fun x => forall i, conversation_contexts.user_id x = Some i ->
                      i ∉ removed (userIds db) (userIds db'))
       (t_conversation_contexts db')
  /\ (Integrity db -> Integrity db').
Proof.
  intros db'. subst db'.
  pose proof (step_stable s db) as Hst.
  split; [apply step_deletes_key|].
  destruct Hst as [? ? ? ? ? K1 K2 K3 K4 K5 K6 K7].
  repeat (split; [by apply keepsRefs_removed|]).
  apply Stable_integrity, step_stable.
Qed.

End CascadeSpec.

(** ** The retriever *)

Module RetrieverSpec.
Import Retriever Scenario.

Example retrieve_section8 :
  retrieve embed8 similarity8 corpus8 "Q" ({[1]} : gset projectId) 2 (3 # 10)
  = inr [ (mkChunk 1 7 1 0 "first" [9 # 10], 9 # 10);
          (mkChunk 3 7 1 2 "third" [5 # 10], 5 # 10) ]%Q.
Proof. vm_compute. reflexivity. Qed.

Example retrieve_other_scope :
  retrieve embed8 similarity8 corpus8 "Q" ({[2]} : gset projectId) 2 (3 # 10)
  = inr [].
Proof. vm_compute. reflexivity. Qed.

Example retrieve_bad_k :
  retrieve embed8 similarity8 corpus8 "Q" ({[1]} : gset projectId) 0 (3 # 10)
  = inl InvalidArgument.
Proof. vm_compute. reflexivity. Qed.

Example retrieve_nothing_without_scope :
  retrieve embed8 similarity8 corpus8 "Q" ∅ 2 0 = inr [].
Proof. vm_compute. reflexivity. Qed.

Section Facts.
Variable embed : string -> list Q.
Variable similarity : list Q -> list Q -> Q.

(** The store has nothing to offer within an empty scope. *)
Lemma storeQuery_empty_scope corpus v k :
  storeQuery similarity corpus v k (fun c => bool_decide (project c ∈ (∅ : gset projectId)))
  = [].
Proof.
  unfold storeQuery.
  assert (List.filter
            (fun c => bool_decide (project c ∈ (∅ : gset projectId))) corpus
          = []) as ->.
  { induction corpus as [|c l IH]; [done|]. cbn [List.filter].
    by rewrite bool_decide_eq_false_2 by set_solver. }
  simpl. by destruct k.
Qed.

(** C7. For every query, every [k] and every threshold, [retrieve] with an
    empty [project_scope] returns the empty sequence, whatever the corpus
    holds: the search is never widened to the whole corpus (and the search
    proper, asked within the empty scope, finds nothing either). *)
Theorem retrieve_empty_scope_is_empty (corpus : list Chunk) (query : string)
    (k : Z) (similarity_threshold : Q) :
  retrieve embed similarity corpus query ∅ k similarity_threshold = inr []
  /\ search embed similarity corpus query ∅ (Z.to_nat k) similarity_threshold
     = [].
Proof.
  split.
  - unfold retrieve. by rewrite bool_decide_eq_true_2.
  - unfold search. by rewrite storeQuery_empty_scope.
Qed.

End Facts.

End RetrieverSpec.

(** ** More on the chat input *)

Module ChatInputLaws.
Import Js JsFacts ChatInput ChatInputSpec.

(** [trimStart] drops a prefix. *)
Lemma trimStart_suffix s : exists front, s = front ++ trimStart s.
Proof.
  induction s as [|c s [front IH]]; simpl.
  - by exists [].
  - destruct (isWhiteSpace c).
    + exists (c :: front). simpl. by f_equal.
    + by exists [].
Qed.

(** A string that does not trim to nothing trims to a tidy one. *)
Lemma trim_tidy s : trim s <> [] -> tidy (trim s).
Proof.
  intros Hne. split; [done|].
  unfold trim, trimEnd in *.
  set (T := trimStart s) in *.
  set (X := trimStart (reverse T)) in *.
  assert (HX : X <> []) by (intros E; apply Hne; by rewrite E).
  destruct X as [|x X'] eqn:EX; [done|].
  pose proof (trimStart_head _ _ _ EX) as Hx.
  destruct (trimStart_suffix (reverse T)) as [front Hfront].
  fold X in Hfront. rewrite EX in Hfront.
  destruct T as [|t T'] eqn:ET.
  { by destruct front. }
  pose proof (trimStart_head _ _ _ ET) as Ht.
  (* the last code unit of [X] is the first of [T] *)
  assert (Hlast : last (x :: X') = Some t).
  { apply (f_equal last) in Hfront.
    rewrite reverse_cons, last_snoc in Hfront.
    rewrite last_app_cons in Hfront. done. }
  split.
  - intros c rest E.
    apply (f_equal head) in E. rewrite head_reverse, Hlast in E.
    simpl in E. by injection E as <-.
  - intros c front' E.
    apply (f_equal last) in E. rewrite last_reverse, last_snoc in E.
    simpl in E. by injection E as <-.
Qed.

(** Trimming a tidy string changes nothing. *)
Lemma tidy_trim s : tidy s -> trim s = s.
Proof.
  intros (Hne & Hhead & Hlast). unfold trim, trimEnd.
  assert (Hs : trimStart s = s).
  { destruct s as [|c rest]; [done|]. simpl. by rewrite (Hhead c rest). }
  rewrite Hs.
  destruct s as [|c front _] using rev_ind; [done|].
  rewrite reverse_snoc. simpl. rewrite (Hlast c front eq_refl).
  by rewrite reverse_cons, reverse_involutive.
Qed.

Example tidy_example : tidy (trim (lit "  so lar  ")).
Proof. apply trim_tidy. by vm_compute. Qed.

(** X1. Submitting twice sends once: the second submit finds the input
    empty. *)
Theorem handleSubmit_twice_sends_once (p : Props) (st : State) :
  handleSubmit p (handleSubmit p st) = handleSubmit p st.
Proof.
  unfold handleSubmit at 2 3. rewrite canSend_guard.
  destruct (canSend p st) eqn:E; simpl.
  - unfold handleSubmit. simpl. done.
  - unfold handleSubmit. by rewrite canSend_guard, E.
Qed.

(** X2. A key press sends exactly when the key is Enter, Shift is not held and
    the input can be sent; any other key press leaves the component as it
    was. *)
Theorem handleKeyDown_sends_iff_plain_enter (p : Props) (e : KeyEvent)
    (st : State) :
  let plainEnter := key e = lit "Enter" /\ shiftKey e = false in
  (plainEnter /\ canSend p st = true <->
     sendCalls (handleKeyDown p e st) = sendCalls st ++ [trim (message st)])
  /\ (plainEnter /\ canSend p st = true -> message (handleKeyDown p e st) = [])
  /\ (~ (plainEnter /\ canSend p st = true) -> handleKeyDown p e st = st).
Proof.
  intros plainEnter. subst plainEnter.
  assert (Hgrow : forall l (x : jsString), l = l ++ [x] -> False).
  { intros l x H. apply (f_equal length) in H.
    rewrite length_app in H. simpl in H. lia. }
  assert (Hp : bool_decide (key e = lit "Enter") && negb (shiftKey e) = true
               <-> key e = lit "Enter" /\ shiftKey e = false).
  { by rewrite andb_true_iff, bool_decide_eq_true, negb_true_iff. }
  unfold handleKeyDown, handleSubmit. rewrite canSend_guard.
  destruct (bool_decide (key e = lit "Enter") && negb (shiftKey e)).
  - destruct Hp as [Hp _]. specialize (Hp eq_refl).
    destruct (canSend p st); simpl.
    + split; [done|]. split; [done|]. intros H. by destruct H.
    + split; [|split; [|done]].
      * split; [by intros [_ ?] | intros H; by apply Hgrow in H].
      * by intros [_ ?].
  - assert (Hn : ~ (key e = lit "Enter" /\ shiftKey e = false))
      by (intros H%Hp; done).
    split; [|split; [|done]].
    + split; [by intros [? _] | intros H; by apply Hgrow in H].
    + by intros [? _].
Qed.

(** X3. Whatever the user types, presses or clicks, and under whatever props,
    every message handed to [onSendMessage] is tidy: it is not empty and
    has no white space at either end. *)
Theorem dispatch_sends_only_tidy (events : list (Props * Event)) (st : State) :
  Forall tidy (sendCalls st) ->
  Forall tidy (sendCalls (foldl dispatch st events)).
Proof.
  revert st. induction events as [|[p ev] events IH]; intros st Hst; simpl.
  - done.
  - apply IH. unfold dispatch; simpl.
    assert (Hsub : Forall tidy (sendCalls (handleSubmit p st))).
    { unfold handleSubmit. rewrite canSend_guard.
      destruct (canSend p st) eqn:E; simpl; [|done].
      apply Forall_app. split; [done|]. constructor; [|done].
      apply trim_tidy. by apply canSend_true in E as [? _]. }
    destruct ev as [e|e|]; simpl; [done| |done].
    unfold handleKeyDown. by destruct (_ && _).
Qed.

Lemma dispatch_sends_only_tidy_witness :
  Forall tidy
    (sendCalls
       (foldl dispatch (mkState [] None [])
          [ (mkProps false false, Change (mkChangeEvent (lit " hi ") 40));
            (mkProps false false, KeyDown (mkKeyEvent (lit "Enter") false));
            (mkProps false false, Click) ])).
Proof.
  apply (dispatch_sends_only_tidy _ (mkState [] None [])). constructor.
Defined.

End ChatInputLaws.

(** ** More on the registration form *)

Module UserRegistrationLaws.
Import Js JsFacts UserRegistration UserRegistrationSpec.

(** X4. The email field passes exactly for [local@domain.tld]: three parts,
    none of them empty, none holding white space or [@], around one [@] and
    a dot after it. In particular an accepted email holds no white space
    and exactly one [@]. *)
Theorem email_field_accepted_iff_shape (st : State) :
  let e := email (formData st) in
  (emailError (errors (snd (validateForm st))) = None <->
   exists loc dom tld,
     e = loc ++ [64] ++ dom ++ [46] ++ tld
     /\ loc <> [] /\ dom <> [] /\ tld <> []
     /\ Forall (fun c => isWhiteSpace c = false /\ c <> 64)
          (loc ++ dom ++ tld))
  /\ (emailError (errors (snd (validateForm st))) = None ->
      Forall (fun c => isWhiteSpace c = false) e
      /\ length (List.filter (N.eqb 64) e) = 1%nat).
Proof.
  intros e. subst e.
  assert (Hok : forall c, notSpaceNorAt c = true
                          <-> isWhiteSpace c = false /\ c <> 64).
  { intros c. unfold notSpaceNorAt.
    rewrite negb_true_iff, orb_false_iff, N.eqb_neq. done. }
  assert (Hiff : emailError (errors (snd (validateForm st))) = None <->
    exists loc dom tld,
      email (formData st) = loc ++ [64] ++ dom ++ [46] ++ tld
      /\ loc <> [] /\ dom <> [] /\ tld <> []
      /\ Forall (fun c => isWhiteSpace c = false /\ c <> 64)
           (loc ++ dom ++ tld)).
  { rewrite emailError_None, emailPattern_shape.
    split; intros (loc & dom & tld & ? & ? & ? & ? & H);
      exists loc, dom, tld; repeat (split; [done|]);
      (eapply Forall_impl; [exact H|]; intros c; by rewrite Hok). }
  split; [exact Hiff|].
  intros (loc & dom & tld & -> & _ & _ & _ & H)%Hiff.
  rewrite !Forall_app in H. destruct H as (Hl & Hd & Ht).
  assert (Hnone : forall l,
            Forall (fun c => isWhiteSpace c = false /\ c <> 64) l ->
            Forall (fun c => isWhiteSpace c = false) l
            /\ List.filter (N.eqb 64) l = []).
  { induction 1 as [|c l [Hc Hne] _ [IH1 IH2]]; [done|].
    split; [by constructor|]. cbn [List.filter].
    destruct (64 =? c) eqn:E; [|done]. apply N.eqb_eq in E. by subst. }
  destruct (Hnone _ Hl) as [Wl Fl], (Hnone _ Hd) as [Wd Fd],
    (Hnone _ Ht) as [Wt Ft].
  split.
  - rewrite !Forall_app. repeat split; try done; by repeat constructor.
  - rewrite !List.filter_app, Fl, Fd, Ft. done.
Qed.

(** X5. The form has no guard against a second submit: submitting a valid
    form twice calls [onRegister] twice with the same data. Submitting an
    invalid form any number of times calls it never and shows the same
    errors. *)
Theorem handleSubmit_twice_registers_twice (st : State) :
  let ok := fst (validateForm st) in
  formData (handleSubmit (handleSubmit st)) = formData st
  /\ errors (handleSubmit (handleSubmit st)) = errors (handleSubmit st)
  /\ registerCalls (handleSubmit (handleSubmit st))
     = if ok then registerCalls st ++ [formData st; formData st]
       else registerCalls st.
Proof.
  intros ok. subst ok.
  assert (Hs : forall s, formData (handleSubmit s) = formData s
             /\ errors (handleSubmit s) = errors (snd (validateForm s))
             /\ registerCalls (handleSubmit s)
                = if fst (validateForm s)
                  then registerCalls s ++ [formData s] else registerCalls s).
  { intros s. unfold handleSubmit, validateForm; simpl.
    by destruct (keysLength _ =? 0)%nat. }
  assert (Hv : forall s s', formData s' = formData s ->
             fst (validateForm s') = fst (validateForm s)
             /\ errors (snd (validateForm s')) = errors (snd (validateForm s))).
  { intros s s' E. unfold validateForm; simpl. by rewrite E. }
  destruct (Hs st) as (F1 & E1 & R1).
  destruct (Hs (handleSubmit st)) as (F2 & E2 & R2).
  destruct (Hv st (handleSubmit st) F1) as [V1 V2].
  rewrite F2, F1, E2, V2, E1, R2, V1, R1, F1.
  repeat split. destruct (fst (validateForm st)); [|done].
  by rewrite <- app_assoc.
Qed.

(** X6. After the user has typed a name and an email that are both valid, a
    submit calls [onRegister] once with exactly what was typed and leaves
    no error on show, whatever the form held and showed before. *)
Theorem typed_valid_form_registers_it (n e : jsString) (st : State) :
  (2 <= length (trim n))%nat ->
  test emailPattern e = true ->
  let st' :=
    handleSubmit
      (handleInputChange emailField e (handleInputChange nameField n st)) in
  registerCalls st' = registerCalls st ++ [mkRegistrationRequest n e]
  /\ formData st' = mkRegistrationRequest n e
  /\ errors st' = mkErrors None None.
Proof.
  intros Hn He st'. subst st'.
  set (st1 := handleInputChange emailField e
                (handleInputChange nameField n st)).
  assert (Hfd : formData st1 = mkRegistrationRequest n e) by done.
  assert (Hrc : registerCalls st1 = registerCalls st) by done.
  assert (Hn' : nameError (errors (snd (validateForm st1))) = None)
    by (apply (proj2 (nameError_None st1)); exact Hn).
  assert (He' : emailError (errors (snd (validateForm st1))) = None)
    by (apply (proj2 (emailError_None st1)); exact He).
  assert (Hv : fst (validateForm st1) = true)
    by (by apply (proj2 (validateForm_true st1))).
  unfold handleSubmit.
  destruct (validateForm st1) as [ok st2] eqn:Ev.
  simpl in Hv, Hn', He'. subst ok.
  assert (formData st2 = mkRegistrationRequest n e
          /\ registerCalls st2 = registerCalls st)
    as [Hf Hr] by (unfold validateForm in Ev; by injection Ev as _ <-).
  cbn [negb formData errors registerCalls]. rewrite Hf, Hr.
  repeat split.
  destruct (errors st2) as [a b]. simpl in *. by subst.
Qed.

Lemma typed_valid_form_registers_it_witness :
  registerCalls
    (handleSubmit
       (handleInputChange emailField (lit "al@example.org")
          (handleInputChange nameField (lit "Al")
             (mkState (mkRegistrationRequest (lit "x") (lit "y"))
                (mkErrors (Some (lit "Name must be at least 2 characters"))
                          (Some (lit "Please enter a valid email address")))
                []))))
  = [] ++ [mkRegistrationRequest (lit "Al") (lit "al@example.org")].
Proof.
  refine (proj1 (typed_valid_form_registers_it (lit "Al")
                   (lit "al@example.org") _ _ _)).
  - vm_compute. lia.
  - vm_compute. reflexivity.
Defined.

End UserRegistrationLaws.

(** ** More on the store *)

Module AppStoreLaws.
Import Js AppStore AppStoreSpec.

Lemma replaceById_ids c convs :
  Conversation.id <$> replaceById c convs = Conversation.id <$> convs.
Proof.
  unfold replaceById. rewrite <- list_fmap_compose.
  apply list_fmap_ext. intros _ conv _. simpl.
  by case_bool_decide.
Qed.

Lemma replaceById_synced c convs conv :
  conv ∈ replaceById c convs ->
  Conversation.id conv = Conversation.id c -> conv = c.
Proof.
  unfold replaceById. intros (conv0 & -> & _)%list_elem_of_fmap.
  by case_bool_decide.
Qed.

(** X7. [addMessage] never adds, removes or reorders conversations, never
    changes which conversation is the current one, and leaves the list in
    step with the current conversation: every entry that bears the id of
    the current conversation is the current conversation, new message
    included. *)
Theorem addMessage_keeps_ids_and_syncs (now : Date) (m : ChatMessage.t)
    (s : AppState.t) :
  let s' := addMessage now m s in
  Conversation.id <$> AppState.conversations s'
  = Conversation.id <$> AppState.conversations s
  /\ Conversation.id <$> AppState.currentConversation s'
     = Conversation.id <$> AppState.currentConversation s
  /\ forall cur conv,
       AppState.currentConversation s' = Some cur ->
       conv ∈ AppState.conversations s' ->
       Conversation.id conv = Conversation.id cur ->
       conv = cur.
Proof.
  unfold addMessage, set.
  destruct (AppState.currentConversation s) as [cur0|] eqn:E.
  - simpl. split; [apply replaceById_ids|]. split; [done|].
    intros cur conv [= <-] Hin Hid. by eapply replaceById_synced.
  - rewrite assign_whole, E. done.
Qed.

(** X8. [updateConversation c] puts [c] in the place of every conversation
    that bears its id, in the list and as the current one, and touches
    nothing else: the list keeps its length and its ids, the other entries
    and a current conversation with another id stay, and so do [user],
    [isLoading] and [error]. A [c] whose id is not in the store changes
    nothing. *)
Theorem updateConversation_replaces_by_id (c : Conversation.t) (s : AppState.t) :
  let s' := updateConversation c s in
  Conversation.id <$> AppState.conversations s'
  = Conversation.id <$> AppState.conversations s
  /\ (forall i conv,
        AppState.conversations s !! i = Some conv ->
        AppState.conversations s' !! i
        = Some (if bool_decide (Conversation.id conv = Conversation.id c)
                then c else conv))
  /\ AppState.currentConversation s'
     = (cur ← AppState.currentConversation s;
        Some (if bool_decide (Conversation.id cur = Conversation.id c)
              then c else cur))
  /\ AppState.user s' = AppState.user s
  /\ AppState.isLoading s' = AppState.isLoading s
  /\ AppState.error s' = AppState.error s
  /\ (Conversation.id c ∉ Conversation.id <$> AppState.conversations s ->
      (forall cur, AppState.currentConversation s = Some cur ->
                   Conversation.id cur <> Conversation.id c) ->
      s' = s).
Proof.
  unfold updateConversation, set; simpl.
  split; [apply replaceById_ids|].
  split; [intros i conv Hi; by rewrite replaceById_lookup, Hi|].
  split.
  { destruct (AppState.currentConversation s) as [cur|]; simpl; [|done].
    by case_bool_decide. }
  repeat (split; [done|]).
  intros Hnot Hcur. destruct s as [u cur convs l e]; simpl in *.
  unfold assign; simpl. f_equal.
  - destruct cur as [cur|]; [|done].
    rewrite bool_decide_eq_false_2; [done|]. by apply Hcur.
  - unfold replaceById. rewrite <- (list_fmap_id convs) at 2.
    apply list_fmap_ext. intros i conv Hi. simpl.
    rewrite bool_decide_eq_false_2; [done|].
    intros Hid. apply Hnot. rewrite <- Hid.
    apply list_elem_of_fmap_2. by eapply list_elem_of_lookup_2.
Qed.

Lemma spread_assoc a b c :
  UserPreferences.spread (UserPreferences.spread a b) c
  = UserPreferences.spread a (UserPreferences.spread b c).
Proof.
  destruct a as [[]? []], b as [[]? []], c as [[?|][?|][?|]]; done.
Qed.

Lemma spread_same a b :
  UserPreferences.spread (UserPreferences.spread a b) b
  = UserPreferences.spread a b.
Proof.
  destruct a as [???], b as [[?|][?|][?|]]; done.
Qed.

(** X9. [updateUserPreferences] merges key by key, the update winning on
    every key it has, also on a key it has with the value [undefined]
    (which then reads [undefined] afterwards), and the old value staying on
    the keys it lacks. Two updates in a row are one update with the two
    sets of preferences merged, the same update twice is that update once,
    only the preferences of the user change, and without a user nothing
    happens. *)
Theorem updateUserPreferences_merges (p q : UserPreferences.t) (s : AppState.t) :
  let merged {V} (property : UserPreferences.t -> option (option V))
      (old result : UserPreferences.t) :=
    match property p with
    | Some x =>
        property result = Some x /\ UserPreferences.get (property result) = x
    | None => property result = property old
    end in
  updateUserPreferences q (updateUserPreferences p s)
  = updateUserPreferences (UserPreferences.spread p q) s
  /\ updateUserPreferences p (updateUserPreferences p s)
     = updateUserPreferences p s
  /\ (AppState.user s = None -> updateUserPreferences p s = s)
  /\ (forall u, AppState.user s = Some u ->
        exists u' result,
          AppState.user (updateUserPreferences p s) = Some u'
          /\ User.preferences u' = Some result
          /\ result
             = UserPreferences.spread
                 (default UserPreferences.empty (User.preferences u)) p
          /\ merged UserPreferences.theme
               (default UserPreferences.empty (User.preferences u)) result
          /\ merged UserPreferences.notifications
               (default UserPreferences.empty (User.preferences u)) result
          /\ merged UserPreferences.energyUnits
               (default UserPreferences.empty (User.preferences u)) result
          /\ User.user_id u' = User.user_id u
          /\ User.name u' = User.name u
          /\ User.email u' = User.email u
          /\ User.interests u' = User.interests u
          /\ User.registered_at u' = User.registered_at u)
  /\ AppState.conversations (updateUserPreferences p s)
     = AppState.conversations s
  /\ AppState.currentConversation (updateUserPreferences p s)
     = AppState.currentConversation s.
Proof.
  intros merged. subst merged.
  destruct s as [[u|] cur convs l e];
    unfold updateUserPreferences, set, assign; simpl.
  - split; [by rewrite spread_assoc|].
    split; [by rewrite spread_same|].
    split; [done|]. split; [|done].
    intros ? [= <-]. do 2 eexists. split; [reflexivity|].
    split; [reflexivity|]. split; [reflexivity|].
    destruct p as [[?|] [?|] [?|]]; simpl; done.
  - repeat split; done.
Qed.

(** An update that has the key [theme] with the value [undefined] wipes
    the theme the user had. *)
Example updateUserPreferences_undefined_wins :
  let prefs (theme : option (option UserPreferences.Theme)) :=
    UserPreferences.mk theme None None in
  let u :=
    User.mk [] [] [] None None (Some (prefs (Some (Some UserPreferences.dark))))
      None in
  (User.preferences
     <$> AppState.user
           (updateUserPreferences (prefs (Some None))
              (setUser (Some u) initialState)))
  = Some (Some (prefs (Some None))).
Proof. reflexivity. Qed.

End AppStoreLaws.

(** ** More on the chat relay *)

Module ChatInterfaceLaws.
Import Js JsFacts ChatInterface Scenario ChatInterfaceSpec AppStoreSpec
  AppStoreLaws ChatInputSpec ChatInputLaws.

#[local] Opaque lit decimal trim.

Lemma replaceById_twice c1 c2 convs :
  Conversation.id c1 = Conversation.id c2 ->
  AppStore.replaceById c2 (AppStore.replaceById c1 convs)
  = AppStore.replaceById c2 convs.
Proof.
  intros Hid. unfold AppStore.replaceById. rewrite <- list_fmap_compose.
  apply list_fmap_ext. intros _ conv _. simpl. rewrite Hid.
  destruct (decide (Conversation.id conv = Conversation.id c2)) as [E|E].
  - rewrite (bool_decide_eq_true_2 _ E).
    by rewrite Hid, bool_decide_eq_true_2.
  - rewrite (bool_decide_eq_false_2 _ E).
    by rewrite bool_decide_eq_false_2.
Qed.

#[local] Opaque AppStore.replaceById.

(** Where a send files its two messages: in the conversation it works on,
    which is the current one afterwards and replaces its namesakes in the
    list (after having been put at its head, if it is new). *)
Lemma handleSendMessage_files show env msg w u :
  AppState.user (store w) = Some u ->
  truthy (trim msg) = true ->
  let conv0 := conversationAt env w in
  let elapsed := fst (postChat env (requestAt env w u msg)) in
  let w' := snd (handleSendMessage show env msg w) in
  exists userMsg reply conv,
    AppState.currentConversation (store w') = Some conv
    /\ Conversation.id conv = Conversation.id conv0
    /\ Conversation.userId conv = Conversation.userId conv0
    /\ Conversation.createdAt conv = Conversation.createdAt conv0
    /\ Conversation.updatedAt conv = clock w + elapsed
    /\ Conversation.messages conv
       = Conversation.messages conv0 ++ [userMsg; reply]
    /\ AppState.conversations (store w')
       = AppStore.replaceById conv
           (if AppState.currentConversation (store w) is Some _
            then AppState.conversations (store w)
            else conv0 :: AppState.conversations (store w))
    /\ userMsg
       = {| ChatMessage.id := lit "msg_" ++ decimal (clock w) ++ lit "_user";
            ChatMessage.content := msg;
            ChatMessage.sender := ChatMessage.user;
            ChatMessage.timestamp := clock w;
            ChatMessage.mathResponse := None |}
    /\ ChatMessage.sender reply = ChatMessage.assistant
    /\ ChatMessage.timestamp reply = clock w + elapsed.
Proof.
  intros Hu Ht conv0 elapsed w'. subst conv0 elapsed w'.
  unfold handleSendMessage, requestAt, conversationAt.
  destruct w as [s t reqs]. simpl in Hu.
  unfold mbind, M_bind, getStore; simpl. rewrite Hu, Ht; simpl.
  unfold tryCatchFinally, mbind, M_bind, mret, M_ret, act, addMessage,
    createNewConversation, dateNow, sendMessage, throw; simpl.
  unfold mbind, M_bind, mret, M_ret, dateNow, act; simpl.
  destruct (AppState.currentConversation s) as [cur|] eqn:Ec; simpl.
  all: rewrite ?Ec; simpl.
  all: match goal with
       | |- context [postChat ?e ?r] =>
           destruct (postChat e r) as [el [r0|sm]] eqn:Ep
       end; simpl.
  all: try (destruct (ApiResponse.success r0), (ApiResponse.data r0) as [d|]);
    simpl.
  all: unfold AppStore.addMessage, AppStore.clearError, AppStore.setLoading,
         AppStore.setError, AppStore.addConversation, AppStore.set,
         AppStore.assign; simpl; rewrite ?Ec; simpl.
  all: do 3 eexists; split; [reflexivity|]; simpl.
  all: rewrite <- ?app_assoc; simpl.
  all: repeat (split; [reflexivity|]).
  all: split; [|split; [reflexivity|split; reflexivity]].
  all: by apply replaceById_twice.
Qed.

#[local] Transparent AppStore.replaceById.

(** X10. The first send of a session opens a conversation: it becomes the
    current one and the head of the list, its id is made of the clock and
    the random text, its creation time is the time of the send, it holds
    the two messages of the exchange, and the request names it. It is
    filed under the [id] property of the user object and, when the user
    object has none (the [User] interface declares [user_id], not [id]),
    under 'anonymous', while the request carries the user's [user_id]. *)
Theorem first_send_opens_conversation
    (show : number -> jsString) (env : Env) (msg : jsString) (w : World)
    (u : User.t) :
  AppState.user (store w) = Some u ->
  truthy (trim msg) = true ->
  AppState.currentConversation (store w) = None ->
  let w' := snd (handleSendMessage show env msg w) in
  exists conv req,
    AppState.currentConversation (store w') = Some conv
    /\ AppState.conversations (store w')
       = conv :: AppStore.replaceById conv (AppState.conversations (store w))
    /\ Conversation.id conv
       = lit "conv_" ++ decimal (clock w) ++ lit "_" ++ random36 env
    /\ Conversation.userId conv = orElse (User.id u) (lit "anonymous")
    /\ (User.id u = None -> Conversation.userId conv = lit "anonymous")
    /\ Conversation.createdAt conv = clock w
    /\ length (Conversation.messages conv) = 2%nat
    /\ requests w' = requests w ++ [req]
    /\ ChatRequest.conversationId req = Some (Conversation.id conv)
    /\ ChatRequest.userId req = User.user_id u.
Proof.
  intros Hu Ht Hc w'. subst w'.
  destruct (handleSendMessage_files show env msg w u Hu Ht)
    as (userMsg & reply & conv & Hcur & Hid & Huid & Hcr & _ & Hm & Hl & _).
  destruct (handleSendMessage_run show env msg w u Hu Ht)
    as (_ & Hq & _).
  unfold conversationAt in *. rewrite Hc in *. rewrite Hu in Huid.
  simpl in *.
  exists conv, (requestAt env w u msg).
  split; [done|]. split.
  { rewrite Hl. unfold AppStore.replaceById at 1. simpl.
    by rewrite bool_decide_eq_true_2. }
  split; [done|]. split; [done|].
  split; [by intros E; rewrite Huid, E|].
  split; [done|]. split; [by rewrite Hm|].
  split; [done|]. unfold requestAt, conversationAt. rewrite Hc. simpl.
  by rewrite Hid.
Qed.

Lemma first_send_opens_conversation_witness :
  exists conv req,
    AppState.currentConversation
      (store (snd (handleSendMessage showNumber unreachable
                     (lit "How much sun?") fresh))) = Some conv
    /\ Conversation.userId conv = lit "anonymous"
    /\ ChatRequest.userId req = lit "u-1".
Proof.
  destruct (first_send_opens_conversation showNumber unreachable
              (lit "How much sun?") fresh alice eq_refl eq_refl eq_refl)
    as (conv & req & H1 & _ & _ & _ & H5 & _ & _ & _ & _ & H10).
  exists conv, req. split; [done|]. split; [by apply H5 | done].
Defined.

(** X11. Whatever the backend does, a send appends exactly two messages to
    the current conversation, after the ones it held: first the user's
    text as it was given (not trimmed), without math data, then one
    assistant message. A conversation that was current stays the current
    one, with its id, its user and its creation time. *)
Theorem send_appends_user_then_assistant_message
    (show : number -> jsString) (env : Env) (msg : jsString) (w : World)
    (u : User.t) :
  AppState.user (store w) = Some u ->
  truthy (trim msg) = true ->
  let w' := snd (handleSendMessage show env msg w) in
  exists userMsg reply conv,
    AppState.currentConversation (store w') = Some conv
    /\ currentMessages (store w')
       = currentMessages (store w) ++ [userMsg; reply]
    /\ ChatMessage.content userMsg = msg
    /\ ChatMessage.sender userMsg = ChatMessage.user
    /\ ChatMessage.mathResponse userMsg = None
    /\ ChatMessage.sender reply = ChatMessage.assistant
    /\ (forall cur,
          AppState.currentConversation (store w) = Some cur ->
          Conversation.id conv = Conversation.id cur
          /\ Conversation.userId conv = Conversation.userId cur
          /\ Conversation.createdAt conv = Conversation.createdAt cur).
Proof.
  intros Hu Ht w'. subst w'.
  destruct (handleSendMessage_files show env msg w u Hu Ht)
    as (userMsg & reply & conv & Hcur & Hid & Huid & Hcr & _ & Hm & _ & Hum
        & Hs & _).
  exists userMsg, reply, conv.
  split; [done|]. split.
  { unfold currentMessages at 1. rewrite Hcur, Hm.
    unfold conversationAt, currentMessages.
    by destruct (AppState.currentConversation (store w)). }
  split; [by subst userMsg|]. split; [by subst userMsg|].
  split; [by subst userMsg|]. split; [done|].
  intros cur Hc. unfold conversationAt in Hid, Huid, Hcr.
  rewrite Hc in Hid, Huid, Hcr. done.
Qed.

Lemma send_appends_user_then_assistant_message_witness :
  exists userMsg reply,
    currentMessages
      (store (snd (handleSendMessage showNumber unreachable
                     (lit " sun? ") fresh)))
    = [] ++ [userMsg; reply]
    /\ ChatMessage.content userMsg = lit " sun? "
    /\ ChatMessage.sender reply = ChatMessage.assistant.
Proof.
  destruct (send_appends_user_then_assistant_message showNumber unreachable
              (lit " sun? ") fresh alice eq_refl eq_refl)
    as (userMsg & reply & conv & _ & H2 & H3 & _ & _ & H6 & _).
  exists userMsg, reply. done.
Defined.

(** X12. After a send the list is in step with the current conversation: every
    entry that bears its id is the current conversation itself, and when
    the send had to open the conversation it is in the list. *)
Theorem send_leaves_list_in_step
    (show : number -> jsString) (env : Env) (msg : jsString) (w : World)
    (u : User.t) :
  AppState.user (store w) = Some u ->
  truthy (trim msg) = true ->
  let w' := snd (handleSendMessage show env msg w) in
  exists conv,
    AppState.currentConversation (store w') = Some conv
    /\ (forall c, c ∈ AppState.conversations (store w') ->
                  Conversation.id c = Conversation.id conv -> c = conv)
    /\ (AppState.currentConversation (store w) = None ->
        conv ∈ AppState.conversations (store w'))
    /\ length (AppState.conversations (store w'))
       = (if AppState.currentConversation (store w) is Some _
          then length (AppState.conversations (store w))
          else S (length (AppState.conversations (store w)))).
Proof.
  intros Hu Ht w'. subst w'.
  destruct (handleSendMessage_files show env msg w u Hu Ht)
    as (userMsg & reply & conv & Hcur & Hid & _ & _ & _ & _ & Hl & _).
  exists conv. split; [done|]. rewrite Hl. split; [|split].
  - intros c Hc Hidc. by eapply replaceById_synced.
  - intros Hnone. rewrite Hnone.
    unfold AppStore.replaceById. simpl.
    rewrite bool_decide_eq_true_2 by done. by left.
  - rewrite replaceById_length.
    by destruct (AppState.currentConversation (store w)).
Qed.

Lemma send_leaves_list_in_step_witness :
  exists conv,
    AppState.currentConversation
      (store (snd (handleSendMessage showNumber unreachable
                     (lit "How much sun?") fresh))) = Some conv
    /\ conv ∈ AppState.conversations
                (store (snd (handleSendMessage showNumber unreachable
                               (lit "How much sun?") fresh))).
Proof.
  destruct (send_leaves_list_in_step showNumber unreachable
              (lit "How much sun?") fresh alice eq_refl eq_refl)
    as (conv & H1 & _ & H3 & _).
  exists conv. split; [done | by apply H3].
Defined.

(** X13. A send posts exactly one request, carrying the text as it was given,
    when a user is registered and the text is not blank; otherwise it posts
    nothing and leaves the store, the clock and everything else alone. *)
Theorem send_posts_once_or_does_nothing
    (show : number -> jsString) (env : Env) (msg : jsString) (w : World) :
  match AppState.user (store w), truthy (trim msg) with
  | Some u, true =>
      exists req,
        requests (snd (handleSendMessage show env msg w))
        = requests w ++ [req]
        /\ ChatRequest.message req = msg
        /\ ChatRequest.userId req = User.user_id u
  | _, _ => handleSendMessage show env msg w = (Returned tt, w)
  end.
Proof.
  destruct (AppState.user (store w)) as [u|] eqn:Hu.
  - destruct (truthy (trim msg)) eqn:Ht.
    + destruct (handleSendMessage_run show env msg w u Hu Ht)
        as (_ & Hq & _).
      by exists (requestAt env w u msg).
    + apply handleSendMessage_guard. by right.
  - apply handleSendMessage_guard. by left.
Qed.

(** X14. What [ChatInput] hands over is never held back by the relay: for a
    registered user, the message a sendable input sends is posted as it
    is. *)
Theorem sendable_input_is_posted
    (show : number -> jsString) (env : Env) (w : World) (u : User.t)
    (p : ChatInput.Props) (st : ChatInput.State) :
  AppState.user (store w) = Some u ->
  ChatInput.canSend p st = true ->
  exists sent req,
    ChatInput.sendCalls (ChatInput.handleSubmit p st)
    = ChatInput.sendCalls st ++ [sent]
    /\ requests (snd (handleSendMessage show env sent w))
       = requests w ++ [req]
    /\ ChatRequest.message req = sent
    /\ trim sent = sent.
Proof.
  intros Hu Hc.
  pose proof (proj1 (canSend_true p st) Hc) as (Hne & _ & _).
  pose proof (trim_tidy _ Hne) as Htidy.
  pose proof (tidy_trim _ Htidy) as Hfix.
  exists (trim (ChatInput.message st)), (requestAt env w u (trim (ChatInput.message st))).
  split.
  { unfold ChatInput.handleSubmit. rewrite canSend_guard, Hc. done. }
  split; [|done].
  assert (Ht : truthy (trim (trim (ChatInput.message st))) = true)
    by (rewrite Hfix; by apply truthy_true).
  by destruct (handleSendMessage_run show env _ w u Hu Ht) as (_ & Hq & _).
Qed.

Lemma sendable_input_is_posted_witness :
  exists sent req,
    ChatInput.sendCalls
      (ChatInput.handleSubmit (ChatInput.mkProps false false)
         (ChatInput.mkState (lit "  sun? ") None []))
    = [] ++ [sent]
    /\ requests (snd (handleSendMessage showNumber unreachable sent fresh))
       = [] ++ [req]
    /\ ChatRequest.message req = sent.
Proof.
  destruct (sendable_input_is_posted showNumber unreachable fresh alice
              (ChatInput.mkProps false false)
              (ChatInput.mkState (lit "  sun? ") None []) eq_refl eq_refl)
    as (sent & req & H1 & H2 & H3 & _).
  by exists sent, req.
Defined.

End ChatInterfaceLaws.

(** ** The service calls, the connection check and the clear button *)

Module ServiceLaws.
Import Js JsFacts ChatInterface Scenario ChatInterfaceSpec AppStoreSpec
  AppStoreLaws ChatInputSpec.

#[local] Opaque lit.

Lemma settle_spec {T} (fallback : jsString) (call : N * AxiosResult T) w :
  truthy fallback = true ->
  store (snd (settle fallback call w)) = store w
  /\ clock (snd (settle fallback call w)) = clock w + call.1
  /\ requests (snd (settle fallback call w)) = requests w
  /\ match call.2 with
     | Resolved data => fst (settle fallback call w) = Returned data
     | Rejected sm =>
         exists m,
           fst (settle fallback call w) = Thrown (mkError m)
           /\ m <> []
           /\ (truthyOpt sm = true -> sm = Some m)
           /\ (truthyOpt sm = false -> m = fallback)
     end.
Proof.
  intros Hf. unfold settle. destruct call as [el [d|sm]]; simpl.
  - done.
  - repeat split; try done. eexists. split; [reflexivity|].
    split; [by apply truthy_true, orElse_truthy|].
    destruct sm as [m|]; simpl; [|done].
    destruct (truthy m); split; (done || by intros _).
Qed.

(** X15. No method of [apiService] lets a rejection through without a message:
    the error it throws carries the server's message when there is one
    that is not empty, and the fallback of the endpoint otherwise. None of
    them touches the store; a call that resolves hands back the body as it
    came, whatever its [success] says. *)
Theorem api_rejections_carry_a_message (api : ApiEnv) (w : World)
    (userData : UserRegistration.RegistrationRequest) (userId : jsString)
    (preferences : UserPreferences.t) :
  let outcome {T} (fallback : jsString) (call : N * AxiosResult T)
      (run : Outcome T * World) :=
    store (snd run) = store w
    /\ match call.2 with
       | Resolved data => fst run = Returned data
       | Rejected sm =>
           exists m,
             fst run = Thrown (mkError m) /\ m <> []
             /\ (truthyOpt sm = true -> sm = Some m)
             /\ (truthyOpt sm = false -> m = fallback)
       end in
  outcome (lit "Health check failed") (getHealth api) (healthCheck api w)
  /\ outcome (lit "Registration failed") (postRegister api userData)
       (registerUser api userData w)
  /\ outcome (lit "Failed to get conversation") (getConversationOf api userId)
       (getConversation api userId w)
  /\ outcome (lit "Failed to update preferences")
       (postPreferences api userId preferences)
       (updateUserPreferences api userId preferences w).
Proof.
  intros outcome. subst outcome. simpl.
  unfold healthCheck, registerUser, getConversation, updateUserPreferences.
  repeat split;
    match goal with
    | |- context [settle ?f ?c w] =>
        destruct (settle_spec f c w) as (? & ? & ? & ?); [by vm_compute|]; done
    end.
Qed.

(** X16. The connection counts as up exactly when GET /health resolves,
    whatever the body says. When it is up the error of the store is
    cleared. When it is down the error says so, and the chat input, which
    is disabled then, sends nothing whatever it holds. *)
Theorem checkConnection_gates_the_input (api : ApiEnv) (w : World) :
  exists isConnected,
    fst (checkConnection api w) = Returned isConnected
    /\ (isConnected = true <-> exists body, (getHealth api).2 = Resolved body)
    /\ AppState.error (store (snd (checkConnection api w)))
       = (if isConnected then None
          else Some (lit "Failed to connect to the server. Please check if the backend is running."))
    /\ AppState.user (store (snd (checkConnection api w)))
       = AppState.user (store w)
    /\ AppState.conversations (store (snd (checkConnection api w)))
       = AppState.conversations (store w)
    /\ (isConnected = false ->
        forall st : ChatInput.State,
          ChatInput.handleSubmit
            (chatInputProps isConnected (store (snd (checkConnection api w))))
            st = st).
Proof.
  unfold checkConnection, healthCheck, settle.
  destruct (getHealth api) as [el [body|sm]]; simpl.
  - exists true. repeat split; eauto; done.
  - exists false. repeat split; try done.
    + by intros (? & ?).
    + intros _ st. unfold ChatInput.handleSubmit, chatInputProps. simpl.
      by rewrite !orb_true_r.
Qed.

(** X17. Clearing empties the current conversation and nothing else: it keeps
    its id, and the list of conversations is not touched, so the entry of
    the list still holds the messages cleared. The next message then
    replaces that entry by the cleared conversation with that one
    message. *)
Theorem clear_keeps_the_list_until_next_message
    (w : World) (cur : Conversation.t) (now : Date) (m : ChatMessage.t) :
  AppState.currentConversation (store w) = Some cur ->
  let w1 := snd (handleClearConversation w) in
  let s2 := AppStore.addMessage now m (store w1) in
  currentMessages (store w1) = []
  /\ Conversation.id <$> AppState.currentConversation (store w1)
     = Some (Conversation.id cur)
  /\ AppState.conversations (store w1) = AppState.conversations (store w)
  /\ requests w1 = requests w
  /\ currentMessages s2 = [m]
  /\ forall i conv,
       AppState.conversations (store w) !! i = Some conv ->
       Conversation.id conv = Conversation.id cur ->
       exists conv',
         AppState.conversations s2 !! i = Some conv'
         /\ Conversation.messages conv' = [m].
Proof.
  intros Hc w1 s2. subst w1 s2.
  unfold handleClearConversation, mbind, M_bind, getStore, dateNow, act,
    currentMessages; simpl.
  rewrite Hc; simpl.
  repeat (split; [done|]).
  intros i conv Hi Hid.
  rewrite replaceById_lookup, Hi. simpl.
  rewrite bool_decide_eq_true_2 by done. eexists. split; [reflexivity|done].
Qed.

Lemma clear_keeps_the_list_until_next_message_witness :
  let m1 :=
    ChatMessage.mk (lit "m1") (lit "How much sun?") ChatMessage.user 1000
      None in
  let cur := Conversation.mk (lit "c1") (lit "u-1") [m1] 1000 1000 in
  let w :=
    mkWorld (AppState.mk (Some alice) (Some cur) [cur] false None) 2000 [] in
  let m2 :=
    ChatMessage.mk (lit "m2") (lit "And wind?") ChatMessage.user 3000 None in
  let w1 := snd (handleClearConversation w) in
  currentMessages (store w1) = []
  /\ AppState.conversations (store w1) = [cur]
  /\ exists conv',
       AppState.conversations (AppStore.addMessage 3000 m2 (store w1)) !! 0%nat
       = Some conv'
       /\ Conversation.messages conv' = [m2].
Proof.
  cbv zeta.
  destruct (clear_keeps_the_list_until_next_message
              (mkWorld
                 (AppState.mk (Some alice)
                    (Some (Conversation.mk (lit "c1") (lit "u-1")
                             [ChatMessage.mk (lit "m1") (lit "How much sun?")
                                ChatMessage.user 1000 None] 1000 1000))
                    [Conversation.mk (lit "c1") (lit "u-1")
                       [ChatMessage.mk (lit "m1") (lit "How much sun?")
                          ChatMessage.user 1000 None] 1000 1000]
                    false None) 2000 [])
              _ 3000
              (ChatMessage.mk (lit "m2") (lit "And wind?") ChatMessage.user
                 3000 None)
              eq_refl)
    as (H1 & _ & H3 & _ & _ & H6).
  split; [exact H1|]. split; [exact H3|].
  exact (H6 0%nat _ eq_refl eq_refl).
Defined.

End ServiceLaws.

(** ** The application shell *)

Module AppLaws.
Import Js JsFacts ChatInterface Scenario ChatInterfaceSpec App.

#[local] Opaque lit.

(** X18. [initializeApp] always ends with [isLoading] false and never touches
    the user or the conversations. It marks the application initialized
    unless the stored item cannot be read; then it records 'Failed to
    initialize application' and leaves [isInitialized] as it was, so an
    application that starts on an unreadable item stays on the loading
    screen. *)
Theorem initializeApp_outcome (stored : Stored) (st : State) :
  let st' := initializeApp stored st in
  AppState.isLoading (store (world st')) = false
  /\ AppState.user (store (world st')) = AppState.user (store (world st))
  /\ AppState.conversations (store (world st'))
     = AppState.conversations (store (world st))
  /\ isInitialized st'
     = (if stored is Unreadable then isInitialized st else true)
  /\ AppState.error (store (world st'))
     = (if stored is Unreadable
        then Some (lit "Failed to initialize application")
        else AppState.error (store (world st)))
  /\ (stored = Unreadable -> isInitialized st = false ->
      render st' = LoadingScreen)
  /\ (stored <> Unreadable ->
      render st'
      = if AppState.user (store (world st)) is Some _
        then ChatScreen else RegistrationScreen).
Proof.
  destruct stored as [| |[|]]; simpl; unfold render; simpl;
    repeat split; try done.
  intros _ ->. done.
Qed.

(** X19. Registration ends with [isLoading] false either way and never touches
    the conversations. When the call resolves with [success] and a user,
    that user is stored, no error is left, and the handler returns. In
    every other case the user of the store is unchanged, the handler
    throws again what it caught, and the [error] of the store is that
    message, which is never empty (so the fallback text of the catch block
    is never shown). *)
Theorem handleUserRegistration_outcome (api : ApiEnv)
    (userData : UserRegistration.RegistrationRequest) (w : World) :
  let run := handleUserRegistration api userData w in
  AppState.isLoading (store (snd run)) = false
  /\ AppState.conversations (store (snd run))
     = AppState.conversations (store w)
  /\ AppState.currentConversation (store (snd run))
     = AppState.currentConversation (store w)
  /\ match (postRegister api userData).2 with
     | Resolved (ApiResponse.mk true (Some user) _ _) =>
         fst run = Returned tt
         /\ AppState.user (store (snd run)) = Some user
         /\ AppState.error (store (snd run)) = None
     | Resolved r =>
         let m := orElse (ApiResponse.error r) (lit "Registration failed") in
         fst run = Thrown (mkError m) /\ m <> []
         /\ AppState.error (store (snd run)) = Some m
         /\ AppState.user (store (snd run)) = AppState.user (store w)
     | Rejected sm =>
         let m := orElse sm (lit "Registration failed") in
         fst run = Thrown (mkError m) /\ m <> []
         /\ AppState.error (store (snd run)) = Some m
         /\ AppState.user (store (snd run)) = AppState.user (store w)
     end.
Proof.
  unfold handleUserRegistration, tryCatchFinally, registerUser, settle,
    mbind, M_bind, mret, M_ret, act, throw; simpl.
  destruct (postRegister api userData) as [el [[[|] [user|] e m]|sm]]; simpl.
  all: repeat split; try done.
  all: try (apply truthy_true, orElse_truthy; by vm_compute).
  all: by rewrite orElse_truthy by (by vm_compute).
Qed.

End AppLaws.

(** ** More on the schema *)

Module SchemaLaws.
Import Schema Cascade Triggers ListFacts RlsSpec CascadeSpec Scenario.

Lemma filter_all {A} (f : A -> bool) (l : list A) :
  (forall x, x ∈ l -> f x = true) -> List.filter f l = l.
Proof.
  induction l as [|x l IH]; intros H; simpl; [done|].
  rewrite (H x) by left. f_equal. apply IH. intros y Hy. apply H. by right.
Qed.

Lemma filter_none {A} (f : A -> bool) (l : list A) :
  (forall x, x ∈ l -> f x = false) -> List.filter f l = [].
Proof.
  induction l as [|x l IH]; intros H; simpl; [done|].
  rewrite (H x) by left. apply IH. intros y Hy. apply H. by right.
Qed.

Lemma filter_filter_negb {A} (f : A -> bool) (l : list A) :
  List.filter f (List.filter (fun x => negb (f x)) l) = [].
Proof.
  apply filter_none. intros x [_ Hx]%elem_of_filter_bool.
  by apply negb_true_iff.
Qed.

(** *** Row level security: what an update leaves alone *)

(** X21. No update, accepted or refused, changes the owner of any row or the
    number of rows: the column of owners reads the same before and
    after. *)
Theorem update_never_changes_an_owner {R} `{Owned R}
    (auth_uid : option uuid) (w : R -> bool) (f : R -> R) (table : list R) :
  user_id_of <$> snd (run auth_uid (Update w f) table) = user_id_of <$> table.
Proof.
  simpl.
  destruct (forallb _ (List.filter _ table)) eqn:E; simpl; [|done].
  apply Forall_forallb in E. revert E.
  induction table as [|r table IH]; simpl; [done|].
  destruct (allowed auth_uid r && w r) eqn:Ehit; simpl; intros E.
  - inversion E as [|? ? Hfr Hrest]; subst.
    apply andb_true_iff in Ehit as [Hr _].
    destruct auth_uid as [u|]; [|done].
    apply allowed_owner in Hfr, Hr. rewrite Hfr, Hr.
    f_equal. exact (IH Hrest).
  - f_equal. exact (IH E).
Qed.

(** *** The trigger on projects *)

(** X22. The trigger decides nothing about whether an update of [projects] is
    accepted; when it is, every row it changed carries the time of the
    statement in [updated_at], whatever the statement wrote there, and the
    rows it did not change keep theirs. *)
Theorem project_update_stamps_updated_at (now : timestamptz)
    (auth_uid : option uuid) (w : projects.row -> bool)
    (f : projects.row -> projects.row) (table : list projects.row) :
  fst (runOnProjects now auth_uid (Update w f) table)
  = fst (run auth_uid (Update w f) table)
  /\ forall i r,
       table !! i = Some r ->
       exists r',
         snd (runOnProjects now auth_uid (Update w f) table) !! i = Some r'
         /\ (fst (run auth_uid (Update w f) table) = PolicyViolation ->
             r' = r)
         /\ (fst (run auth_uid (Update w f) table) <> PolicyViolation ->
             if allowed auth_uid r && w r
             then projects.updated_at r' = Some now
                  /\ projects.name r' = projects.name (f r)
                  /\ projects.user_id r' = projects.user_id (f r)
             else r' = r).
Proof.
  simpl.
  assert (Hsame : forall r, allowed auth_uid (update_updated_at_column now (f r))
                            = allowed auth_uid (f r)) by done.
  assert (Hchk :
    forallb (fun r => allowed auth_uid (update_updated_at_column now (f r)))
      (List.filter (fun r => allowed auth_uid r && w r) table)
    = forallb (fun r => allowed auth_uid (f r))
        (List.filter (fun r => allowed auth_uid r && w r) table)).
  { induction (List.filter _ table) as [|r l IH]; simpl; [done|].
    by rewrite IH. }
  rewrite Hchk.
  destruct (forallb _ (List.filter _ table)) eqn:E; simpl.
  - split; [done|]. intros i r Hi.
    rewrite list_lookup_fmap, Hi. simpl. eexists. split; [reflexivity|].
    split; [done|]. intros _.
    by destruct (allowed auth_uid r && w r).
  - split; [done|]. intros i r Hi. exists r. by repeat split.
Qed.

(** *** Cascades: what a delete leaves alone *)

Lemma refersTo_nil x : refersTo [] x = false.
Proof.
  destruct x as [i|]; [|done]. apply bool_decide_eq_false_2. set_solver.
Qed.

Lemma deleteDocumentsWhere_none gone db :
  (forall d, d ∈ t_documents db -> gone d = false) ->
  deleteDocumentsWhere gone db = db.
Proof.
  intros H. unfold deleteDocumentsWhere. rewrite (filter_none gone) by done.
  simpl. rewrite !filter_all; [by destruct db|..].
    all: intros ? _;
      first [ done | by rewrite refersTo_nil
            | apply negb_true_iff, bool_decide_eq_false_2; set_solver ].
Qed.

Lemma deleteProjectsWhere_none gone db :
  (forall p, p ∈ t_projects db -> gone p = false) ->
  deleteProjectsWhere gone db = db.
Proof.
  intros H. unfold deleteProjectsWhere. rewrite (filter_none gone) by done.
  change (projects.id <$> []) with (@nil uuid).
  rewrite deleteDocumentsWhere_none
    by (intros d _; apply refersTo_nil).
  rewrite !filter_all; [by destruct db|..].
    all: intros ? _;
      first [ done | by rewrite refersTo_nil
            | apply negb_true_iff, bool_decide_eq_false_2; set_solver ].
Qed.

Lemma deleteUsersWhere_none gone db :
  (forall u, u ∈ t_users db -> gone u = false) ->
  deleteUsersWhere gone db = db.
Proof.
  intros H. unfold deleteUsersWhere. rewrite (filter_none gone) by done.
  change (users.id <$> []) with (@nil uuid).
  rewrite deleteProjectsWhere_none
    by (intros d _; apply refersTo_nil).
  rewrite deleteDocumentsWhere_none by (intros d _; apply refersTo_nil).
  rewrite !filter_all; [by destruct db|..].
    all: intros ? _;
      first [ done | by rewrite refersTo_nil
            | apply negb_true_iff, bool_decide_eq_false_2; set_solver ].
Qed.

Lemma step_absent s db :
  match s with
  | DeleteUser u => u ∉ userIds db
  | DeleteProject p => p ∉ projectIds db
  | DeleteDocument d => d ∉ documentIds db
  end ->
  step s db = db.
Proof.
  destruct s as [u|p|d]; simpl; intros Hn.
  - apply deleteUsersWhere_none. intros r Hr.
    apply bool_decide_eq_false_2. intros <-.
    apply Hn. by apply list_elem_of_fmap_2.
  - apply deleteProjectsWhere_none. intros r Hr.
    apply bool_decide_eq_false_2. intros <-.
    apply Hn. by apply list_elem_of_fmap_2.
  - apply deleteDocumentsWhere_none. intros r Hr.
    apply bool_decide_eq_false_2. intros <-.
    apply Hn. by apply list_elem_of_fmap_2.
Qed.

(** X23. Deleting a key that is not there changes nothing, not even rows that
    name it; hence deleting the same key twice is deleting it once. *)
Theorem delete_of_absent_key_is_noop (s : DeleteStep) (db : Database) :
  step s (step s db) = step s db
  /\ (match s with
      | DeleteUser u => u ∉ userIds db
      | DeleteProject p => p ∉ projectIds db
      | DeleteDocument d => d ∉ documentIds db
      end -> step s db = db).
Proof.
  split; [|apply step_absent].
  apply step_absent. pose proof (step_deletes_key s db) as H.
  by destruct s.
Qed.

(** X24. Deleting a document that is there removes the documents with that key
    and the chunks that name it, and nothing else: every other row of
    every table stays, in place. *)
Theorem delete_document_removes_exactly (d : uuid) (db : Database) :
  d ∈ documentIds db ->
  let db' := step (DeleteDocument d) db in
  t_documents db'
  = List.filter (fun r => negb (bool_decide (documents.id r = d)))
      (t_documents db)
  /\ t_document_chunks db'
     = List.filter
         (fun c => negb (bool_decide (document_chunks.document_id c = Some d)))
         (t_document_chunks db)
  /\ t_users db' = t_users db
  /\ t_projects db' = t_projects db
  /\ t_conversation_contexts db' = t_conversation_contexts db.
Proof.
  intros Hd db'. subst db'. simpl. unfold deleteDocumentsWhere. simpl.
  set (ids := documents.id <$> _).
  assert (Hids : forall i, i ∈ ids <-> i = d).
  { intros i. unfold ids. rewrite list_elem_of_fmap. split.
    - intros (r & -> & [_ Hr%bool_decide_eq_true]%elem_of_filter_bool). done.
    - intros ->. apply list_elem_of_fmap in Hd as (r & -> & Hr).
      exists r. split; [done|]. apply elem_of_filter_bool.
      split; [done|]. by apply bool_decide_eq_true. }
  repeat split.
  - apply List.filter_ext. intros r. f_equal. apply bool_decide_ext, Hids.
  - apply List.filter_ext. intros c. f_equal.
    destruct (document_chunks.document_id c) as [i|]; simpl.
    + apply bool_decide_ext. rewrite Hids. split; [by intros -> | by intros [= ->]].
    + first [done | by rewrite bool_decide_eq_false_2].
Qed.

Lemma delete_document_removes_exactly_witness :
  document_chunks.id <$> t_document_chunks (step (DeleteDocument 100) sample)
  = [2000]
  /\ t_projects (step (DeleteDocument 100) sample) = t_projects sample.
Proof.
  assert (H : 100 ∈ documentIds sample) by (vm_compute; set_solver).
  destruct (delete_document_removes_exactly 100 sample H)
    as (_ & Hc & _ & Hp & _).
  split; [by rewrite Hc | exact Hp].
Defined.

End SchemaLaws.

(** ** Statements on the schema *)

Module StatementsSpec.
Import Schema Cascade Triggers Embedding Statements Scenario.
Import ListFacts RlsSpec CascadeSpec SchemaLaws.







Lemma fitsUpdate_unhit {R} clashes (hit : R -> bool) new before todo :
  (forall r, hit r = false) -> fitsUpdate clashes hit new before todo = true.
Proof.
  intros H. revert before. induction todo as [|r todo IH]; intros; simpl;
    [done|]. by rewrite H.
Qed.





(** A delete on a table under row level security leaves [users] alone. *)
Lemma deleteWhere_users {R} (t : Table R) (col : Owned R) gone db :
  owner t = Some col -> t_users (deleteWhere t gone db) = t_users db.
Proof. destruct t; try done; intros _; by simpl. Qed.

Section Protected.
Context {R : Type} (t : Table R) (col : Owned R).
Hypothesis Hown : owner t = Some col.





End Protected.

(** *** What a statement leaves of the embeddings *)

Example isFloat4_examples :
  isFloat4 0.5 = true
  /\ isFloat4 (-0)%float = true
  /\ isFloat4 0x1.fffffep127%float = true
  /\ isFloat4 0x1p-149%float = true
  /\ isFloat4 0x1.000001p0%float = false
  /\ isFloat4 0x1p128%float = false
  /\ isFloat4 0x1p-150%float = false
  /\ isFloat4 nan = false
  /\ isFloat4 infinity = false.
Proof. repeat split; reflexivity. Qed.

Example insert_checks_the_dimension :
  let half := mkFloat4 0.5 eq_refl in
  let chunk v :=
    document_chunks.mk 1002 (Some 1) (Some 100) (Some 10) 2%Z "text"%string
      (Some v) None None None in
  fst (exec 0 (Some 1) DocumentChunks (Insert [chunk (replicate 1536 half)])
         sample) = Count 1
  /\ fst (exec 0 (Some 1) DocumentChunks (Insert [chunk (replicate 1535 half)])
           sample) = Error.
Proof. split; by vm_compute. Qed.

Lemma typed_fits c :
  typed DocumentChunks c = true
  <-> forall v, document_chunks.embedding c = Some v ->
                length v = columnDimension.
Proof.
  simpl. unfold fitsColumn. destruct (document_chunks.embedding c) as [v|].
  - rewrite bool_decide_eq_true. split; [by intros ? ? [= <-] | eauto].
  - split; [done | by intros _].
Qed.

(** No statement on any table brings in an embedding that does not fit
    the column. *)
Lemma exec_wellDimensioned {R} now auth_uid (t : Table R) st db :
  wellDimensioned db -> wellDimensioned (snd (exec now auth_uid t st db)).
Proof.
  unfold wellDimensioned. intros Hdb.
  assert (Hsub : forall db', t_document_chunks db' ⊆ t_document_chunks db ->
            Forall (fun c => forall v, document_chunks.embedding c = Some v ->
                                       length v = columnDimension)
              (t_document_chunks db')).
  { intros db' Hs. rewrite Forall_forall in Hdb |- *. intros c Hc.
    by apply Hdb, Hs. }
  destruct st as [w|vs|w f|w]; unfold exec; cbn [snd].
  - done.
  - destruct (_ && _) eqn:E; [|done]. cbn [snd].
    destruct t; try done.
    rewrite !andb_true_iff in E. destruct E as [[[Et Ea] _] _].
    apply Forall_forallb in Et. simpl in Ea |- *.
    destruct (forallb (allowed auth_uid) vs); [|done]. simpl.
    apply Forall_app. split; [done|].
    eapply Forall_impl; [exact Et|].
    intros c Hc. by apply typed_fits.
  - destruct (_ && _) eqn:E; [|done]. cbn [snd].
    destruct t; try done.
    rewrite !andb_true_iff in E. destruct E as [[[[Et Ea] _] _] _].
    apply Forall_forallb in Et. simpl in Et, Ea |- *.
    destruct (forallb _ (List.filter _ (t_document_chunks db))); [|done].
    simpl. rewrite Forall_forall in Et, Hdb |- *.
    intros c (c0 & -> & Hc0)%list_elem_of_fmap.
    destruct (allowed auth_uid c0 && w c0) eqn:Eh; [|by apply Hdb].
    apply typed_fits, Et. by apply elem_of_filter_bool.
  - destruct t; cbn [deleteWhere].
    + apply Hsub, deleteUsersWhere_stable.
    + apply Hsub, deleteProjectsWhere_stable.
    + apply Hsub, deleteDocumentsWhere_stable.
    + apply Hsub. simpl. by intros c [? _]%elem_of_filter_bool.
    + done.
Qed.

Lemma after_snoc qs q : after (qs ++ [q]) = execQuery q (after qs).
Proof. unfold after. by rewrite foldl_app. Qed.

Lemma after_wellDimensioned qs : wellDimensioned (after qs).
Proof.
  induction qs as [|q qs IH] using rev_ind.
  - constructor.
  - rewrite after_snoc. by apply exec_wellDimensioned.
Qed.

(** A select returns rows of the table. *)
Lemma exec_select_sub {R} now auth_uid (t : Table R) w db rs :
  fst (exec now auth_uid t (Select w) db) = Returned rs -> rs ⊆ rowsOf t db.
Proof.
  unfold exec. destruct t; simpl; intros [= <-] r;
    by intros [? _]%elem_of_filter_bool.
Qed.

(** C6. Every embedding stored in [document_chunks] has the 1536
    components of the column, in every database that statements can make
    of the schema as created, so every chunk a select returns has them
    too; an insert or an update that would write an embedding with
    another number of components ends in an error and changes nothing.
    1536 is also the dimension the environment template of the RAG system
    configures, for the embedding model text-embedding-3-small. *)
Theorem stored_embeddings_have_the_configured_dimension :
  columnDimension = 1536%nat
  /\ getenv "EMBEDDING_MODEL" ragEnvTemplate
     = Some "text-embedding-3-small"%string
  /\ getenvNat "EMBEDDING_DIMENSION" ragEnvTemplate = Some columnDimension
  /\ (forall qs c v,
        c ∈ t_document_chunks (after qs) ->
        document_chunks.embedding c = Some v -> length v = 1536%nat)
  /\ (forall qs now auth_uid w rs c v,
        fst (exec now auth_uid DocumentChunks (Select w) (after qs))
        = Returned rs ->
        c ∈ rs ->
        document_chunks.embedding c = Some v -> length v = 1536%nat)
  /\ (forall now auth_uid vs db c v,
        c ∈ vs ->
        document_chunks.embedding c = Some v -> length v <> 1536%nat ->
        exec now auth_uid DocumentChunks (Insert vs) db = (Error, db))
  /\ (forall now auth_uid w f db c v,
        c ∈ t_document_chunks db ->
        visible DocumentChunks auth_uid c = true -> w c = true ->
        document_chunks.embedding (f c) = Some v -> length v <> 1536%nat ->
        exec now auth_uid DocumentChunks (Update w f) db = (Error, db)).
Proof.
  assert (Hafter : forall qs c v,
            c ∈ t_document_chunks (after qs) ->
            document_chunks.embedding c = Some v -> length v = 1536%nat).
  { intros qs c v Hc Hv. pose proof (after_wellDimensioned qs) as H.
    unfold wellDimensioned in H. rewrite Forall_forall in H. by eapply H. }
  assert (Hbad : forall c v,
            document_chunks.embedding c = Some v -> length v <> 1536%nat ->
            typed DocumentChunks c = false).
  { intros c v Hv Hn. destruct (typed DocumentChunks c) eqn:E; [|done].
    destruct Hn. by eapply typed_fits. }
  split; [done|]. split; [done|]. split; [done|].
  split; [exact Hafter|]. split; [|split].
  - intros qs now auth_uid w rs c v Hrs Hc.
    apply exec_select_sub in Hrs. apply (Hafter qs). by apply Hrs.
  - intros now auth_uid vs db c v Hc Hv Hn. unfold exec.
    assert (E : forallb (typed DocumentChunks) vs = false).
    { destruct (forallb _ vs) eqn:E; [|done].
      apply Forall_forallb in E. rewrite Forall_forall in E.
      specialize (E c Hc). by rewrite (Hbad c v Hv Hn) in E. }
    cbn iota beta zeta. by rewrite E.
  - intros now auth_uid w f db c v Hc Hvis Hw Hv Hn. unfold exec.
    cbn iota beta zeta.
    match goal with
    | |- context [forallb ?p ?l && _ && _ && _ && _] =>
        assert (E : forallb p l = false)
    end.
    { match goal with |- ?b = false => destruct b eqn:E; [|done] end.
      apply Forall_forallb in E. rewrite Forall_forall in E.
      assert (Ht : typed DocumentChunks (f c) = true).
      { apply (E c), elem_of_filter_bool. split; [done|].
        by rewrite Hvis, Hw. }
      by rewrite (Hbad (f c) v Hv Hn) in Ht. }
    by rewrite E.
Qed.

(** *** How statements follow one another *)

Example insert_checks_keys_and_references :
  let document i u p :=
    documents.mk i (Some u) (Some p) "g.pdf"%string "/g.pdf"%string
      None None "upload"%string None None None None None None None in
  let try d := fst (exec 0 (Some 2) Documents (Insert [d]) sample) in
  try (document 201 2 20) = Count 1
  /\ try (document 200 2 20) = Error
  /\ try (document 201 2 77) = Error
  /\ try (document 201 1 20) = Error.
Proof. repeat split; by vm_compute. Qed.

Example update_checks_keys_and_references :
  let rekey (by_ : N) (d : documents.row) :=
    documents.mk (documents.id d + by_) (documents.user_id d)
      (documents.project_id d) (documents.file_name d)
      (documents.file_path d) None None (documents.source_type d) None None
      None None None None None in
  let try f := fst (exec 0 (Some 1) Documents (Update (fun _ => true) f) sample) in
  try (fun d => d) = Count 1
  /\ try (rekey 100) = Error
  /\ try (rekey 1) = Error.
Proof. repeat split; by vm_compute. Qed.


Lemma forallb_true {A} (l : list A) : forallb (fun _ => true) l = true.
Proof. by induction l. Qed.

Lemma secured_insert {R} now auth_uid (t : Table R) vs table :
  accepted (secured now auth_uid t (Insert vs) table).1 = true ->
  secured now auth_uid t (Insert vs) table
  = (Affected (length vs), table ++ vs)
  /\ forallb (visible t auth_uid) vs = true.
Proof.
  destruct t; unfold visible; simpl; [by rewrite forallb_true|..];
    by destruct (forallb (allowed auth_uid) vs).
Qed.




Lemma clash_key {R} (t : Table R) a b :
  clash t a b = false -> key t a <> key t b.
Proof.
  destruct t; simpl; try rewrite orb_false_iff;
    rewrite ?N.eqb_neq; tauto.
Qed.



(** *** Primary keys *)

Lemma clash_email a b :
  clash Users a b = false -> users.email a <> users.email b.
Proof.
  simpl. rewrite orb_false_iff, String.eqb_neq. tauto.
Qed.

Section Unique.
(** A column [k] under a unique index: rows that do not clash differ on
    it. *)
Context {A K : Type} (k : A -> K) (clashes : A -> A -> bool).
Hypothesis Hk : forall a b, clashes a b = false -> k a <> k b.

Lemma NoDup_column_filter (f : A -> bool) (l : list A) :
  NoDup (k <$> l) -> NoDup (k <$> List.filter f l).
Proof using Type.
  induction l as [|a l IH]; simpl; [done|].
  intros [Ha Hl]%NoDup_cons. destruct (f a); simpl; [|by apply IH].
  apply NoDup_cons. split; [|by apply IH].
  intros (r & Hr & [Hin _]%elem_of_filter_bool)%list_elem_of_fmap.
  apply Ha. rewrite Hr. by apply list_elem_of_fmap_2.
Qed.

Lemma no_clash_column (v : A) (l : list A) :
  existsb (clashes v) l = false -> k v ∉ k <$> l.
Proof using Hk.
  intros He (r & Hr & Hin)%list_elem_of_fmap.
  apply (Hk v r); [|done].
  destruct (clashes v r) eqn:E; [|done].
  assert (existsb (clashes v) l = true); [|congruence].
  apply existsb_exists. exists r. by rewrite <- list_elem_of_In.
Qed.

Lemma fits_NoDup table vs :
  fits clashes table vs = true ->
  NoDup (k <$> table) -> NoDup (k <$> table ++ vs).
Proof using Hk.
  revert table. induction vs as [|v vs IH]; intros table; simpl.
  - by rewrite app_nil_r.
  - intros [Hv%negb_true_iff Hrest]%andb_true_iff Hnd.
    rewrite (cons_middle v table vs), app_assoc. apply IH; [done|].
    rewrite fmap_app. simpl. apply NoDup_app. split; [done|].
    split; [|apply NoDup_singleton].
    intros i Hi ->%list_elem_of_singleton. by apply (no_clash_column v table).
Qed.

Lemma fitsUpdate_NoDup (hit : A -> bool) (new : A -> A) before todo :
  fitsUpdate clashes hit new before todo = true ->
  NoDup (k <$> before ++ todo) ->
  NoDup (k <$> before ++ ((fun r => if hit r then new r else r) <$> todo)).
Proof using Hk.
  revert before. induction todo as [|r todo IH]; intros before; simpl.
  - done.
  - intros Hf Hnd.
    rewrite (cons_middle _ before), app_assoc.
    destruct (hit r).
    + apply andb_true_iff in Hf as [Hv%negb_true_iff Hrest].
      apply IH; [done|]. rewrite <- app_assoc. simpl.
      apply no_clash_column in Hv.
      rewrite !fmap_app, fmap_cons in Hnd |- *.
      apply NoDup_app in Hnd as (H1 & H2 & [H3 H4]%NoDup_cons).
      rewrite fmap_app in Hv. rewrite elem_of_app in Hv.
      apply NoDup_app. split; [done|]. split.
      * intros i Hi [->|Hin]%elem_of_cons; [tauto|].
        apply (H2 i Hi). by right.
      * apply NoDup_cons. split; [tauto|done].
    + apply IH; [done|]. by rewrite <- app_assoc.
Qed.

End Unique.

Lemma secured_update {R} now auth_uid (t : Table R) w f table :
  accepted (secured now auth_uid t (Update w f) table).1 = true ->
  (secured now auth_uid t (Update w f) table).2
  = (fun r => if visible t auth_uid r && w r then stamped t now (f r) else r)
    <$> table.
Proof.
  destruct t; unfold visible; simpl; [done|..];
    by destruct (forallb _ (List.filter _ table)).
Qed.

(** No statement breaks a primary key. *)
Lemma exec_keysUnique {R} now auth_uid (t : Table R) st db :
  keysUnique db -> keysUnique (snd (exec now auth_uid t st db)).
Proof.
  intros Hdb.
  assert (Hput : forall rows,
            NoDup (key t <$> rows) -> keysUnique (setRows t rows db)).
  { intros rows Hrows R' t'. pose proof (Hdb _ t') as H'.
    destruct t, t'; done. }
  unfold exec. destruct st as [w|vs|w f|w]; cbn iota beta zeta.
  - done.
  - destruct (_ && _) eqn:E; [|done]. cbn [snd].
    rewrite !andb_true_iff in E. destruct E as [[[_ Ea] Ef] _].
    destruct (secured_insert _ _ _ _ _ Ea) as [-> _]. cbn [snd].
    apply Hput. by apply (fits_NoDup _ _ (clash_key t)).
  - destruct (_ && _) eqn:E; [|done]. cbn [snd].
    rewrite !andb_true_iff in E. destruct E as [[[[_ Ea] Ef] _] _].
    rewrite (secured_update _ _ _ _ _ _ Ea).
    apply Hput. by apply (fitsUpdate_NoDup _ _ (clash_key t) _ _ []).
  - cbn [snd]. intros R' t'.
    pose proof (Hdb _ Users) as H1. pose proof (Hdb _ Projects) as H2.
    pose proof (Hdb _ Documents) as H3.
    pose proof (Hdb _ DocumentChunks) as H4.
    pose proof (Hdb _ ConversationContexts) as H5.
    destruct t, t'; simpl in *; repeat apply NoDup_column_filter; done.
Qed.

(** The keys of every table are all different in every database that
    statements can make of the schema as created. *)
Lemma after_keysUnique qs : keysUnique (after qs).
Proof.
  induction qs as [|q qs IH] using rev_ind.
  - intros R t. destruct t; constructor.
  - rewrite after_snoc. by apply exec_keysUnique.
Qed.

(** A statement on a table under row level security leaves [users]
    alone. *)
Lemma exec_users {R} now auth_uid (t : Table R) (col : Owned R) st db :
  owner t = Some col -> t_users (snd (exec now auth_uid t st db)) = t_users db.
Proof.
  intros Hown. unfold exec. destruct st as [w|vs|w f|w]; cbn iota beta zeta.
  - done.
  - destruct (_ && _); [|done]. by destruct t.
  - destruct (_ && _); [|done]. by destruct t.
  - by apply (deleteWhere_users t col).
Qed.

(** No statement breaks the unique index on the email of the users. *)
Lemma exec_emailsUnique {R} now auth_uid (t : Table R) st db :
  NoDup (users.email <$> t_users db) ->
  NoDup (users.email <$> t_users (snd (exec now auth_uid t st db))).
Proof.
  intros Hdb.
  destruct (owner t) as [col|] eqn:Hown;
    [by rewrite (exec_users _ _ t col)|].
  destruct t; try done. clear Hown. unfold exec.
  destruct st as [w|vs|w f|w]; cbn iota beta zeta.
  - done.
  - destruct (_ && _) eqn:E; [|done]. cbn [snd].
    rewrite !andb_true_iff in E. destruct E as [[[_ _] Ef] _].
    by apply (fits_NoDup _ _ clash_email).
  - destruct (_ && _) eqn:E; [|done]. cbn [snd].
    rewrite !andb_true_iff in E. destruct E as [[[[_ _] Ef] _] _].
    by apply (fitsUpdate_NoDup _ _ clash_email _ _ []).
  - simpl. by repeat apply NoDup_column_filter.
Qed.

Lemma after_emailsUnique qs : NoDup (users.email <$> t_users (after qs)).
Proof.
  induction qs as [|q qs IH] using rev_ind.
  - constructor.
  - rewrite after_snoc. by apply exec_emailsUnique.
Qed.

(** *** Foreign keys *)

Lemma present_spec ids x :
  present ids x = true <-> forall k, x = Some k -> k ∈ ids.
Proof.
  destruct x as [i|]; simpl.
  - rewrite bool_decide_eq_true. split; [by intros ? ? [= <-] | eauto].
  - split; [done | by intros _].
Qed.

Lemma refsOk_spec {R} (t : Table R) db r :
  refsOk t db r = true
  <-> forall x p k, (x, p) ∈ references t r -> x = Some k -> k ∈ keysOf p db.
Proof.
  unfold refsOk. rewrite Forall_forallb, Forall_forall. split.
  - intros H x p k Hin. by apply present_spec, (H (x, p)).
  - intros H [x p] Hin. apply present_spec. intros k. by apply H.
Qed.

Lemma Integrity_sound db : Integrity db <-> sound db.
Proof.
  split.
  - intros [H1 H2 H3 H4 H5 H6 H7] R t r x p k Hr Hin ->.
    rewrite Forall_forall in H1. rewrite Forall_forall in H2.
    rewrite Forall_forall in H3. rewrite Forall_forall in H4.
    rewrite Forall_forall in H5. rewrite Forall_forall in H6.
    rewrite Forall_forall in H7.
    destruct t; simpl in Hr, Hin;
      repeat (apply elem_of_cons in Hin as [[= E ->]|Hin]);
      try (by apply elem_of_nil in Hin).
    + specialize (H1 _ Hr). by rewrite <- E in H1.
    + specialize (H2 _ Hr). by rewrite <- E in H2.
    + specialize (H3 _ Hr). by rewrite <- E in H3.
    + specialize (H4 _ Hr). by rewrite <- E in H4.
    + specialize (H5 _ Hr). by rewrite <- E in H5.
    + specialize (H6 _ Hr). by rewrite <- E in H6.
    + specialize (H7 _ Hr). by rewrite <- E in H7.
  - intros H. split; apply Forall_forall; intros r Hr; unfold fk.
    + destruct (projects.user_id r) as [k|] eqn:E; [|done].
      apply (H _ Projects r (Some k) users_id k Hr); [|done].
      simpl. rewrite E. by left.
    + destruct (documents.user_id r) as [k|] eqn:E; [|done].
      apply (H _ Documents r (Some k) users_id k Hr); [|done].
      simpl. rewrite E. by left.
    + destruct (documents.project_id r) as [k|] eqn:E; [|done].
      apply (H _ Documents r (Some k) projects_id k Hr); [|done].
      simpl. rewrite E. right. by left.
    + destruct (document_chunks.user_id r) as [k|] eqn:E; [|done].
      apply (H _ DocumentChunks r (Some k) users_id k Hr); [|done].
      simpl. rewrite E. by left.
    + destruct (document_chunks.document_id r) as [k|] eqn:E; [|done].
      apply (H _ DocumentChunks r (Some k) documents_id k Hr); [|done].
      simpl. rewrite E. right. by left.
    + destruct (document_chunks.project_id r) as [k|] eqn:E; [|done].
      apply (H _ DocumentChunks r (Some k) projects_id k Hr); [|done].
      simpl. rewrite E. right. right. by left.
    + destruct (conversation_contexts.user_id r) as [k|] eqn:E; [|done].
      apply (H _ ConversationContexts r (Some k) users_id k Hr); [|done].
      simpl. rewrite E. by left.
Qed.

Lemma forall_rows_setRows (P : forall R, Table R -> R -> Prop) {R}
    (t : Table R) rows db :
  (forall R' (t' : Table R') r', r' ∈ rowsOf t' db -> P R' t' r') ->
  (forall r, r ∈ rows -> P R t r) ->
  forall R' (t' : Table R') r',
    r' ∈ rowsOf t' (setRows t rows db) -> P R' t' r'.
Proof. intros H1 H2 R' t' r'. destruct t, t'; simpl; auto. Qed.

Lemma keysOf_setRows {R} (t : Table R) rows db p :
  keysOf p (setRows t rows db)
  = if bool_decide (keyOf t = Some p) then key t <$> rows else keysOf p db.
Proof. by destruct t, p. Qed.

Lemma keysOf_key {R} (t : Table R) db p :
  keyOf t = Some p -> keysOf p db = key t <$> rowsOf t db.
Proof. by destruct t, p. Qed.

(** No table references itself. *)
Lemma no_self_ref {R} (t : Table R) r x p :
  (x, p) ∈ references t r -> keyOf t <> Some p.
Proof.
  destruct t; simpl; intros Hin;
    repeat (apply elem_of_cons in Hin as [[= -> ->]|Hin]); try done;
    by apply elem_of_nil in Hin.
Qed.

Lemma referenced_spec {R} (t : Table R) db r k p :
  r ∈ rowsOf t db -> (Some k, p) ∈ references t r ->
  referenced p db k = true.
Proof.
  intros Hr Hin. unfold referenced.
  assert (H : existsb (names t p k) (rowsOf t db) = true).
  { apply existsb_exists. exists r. split; [by apply list_elem_of_In|].
    by apply bool_decide_eq_true. }
  destruct t; simpl in H; rewrite H; by rewrite ?orb_true_r.
Qed.

Lemma zip_checked (db : Database) (l l' : list (option uuid * Referenced))
    x p :
  l.*2 = l'.*2 ->
  forallb
    (fun c => bool_decide (c.2.1 = c.1.1) || present (keysOf c.2.2 db) c.2.1)
    (zip l l') = true ->
  (x, p) ∈ l' -> (x, p) ∈ l \/ present (keysOf p db) x = true.
Proof.
  revert l'. induction l as [|[y q] l IH]; intros [|[y' q'] l']; simpl;
    try done.
  - by intros _ _ ?%elem_of_nil.
  - intros [= -> Hs] [Hc Hrest]%andb_true_iff [[= -> ->]|Hin]%elem_of_cons.
    + apply orb_true_iff in Hc as [->%bool_decide_eq_true|Hc]; [|by right].
      left. by left.
    + destruct (IH l' Hs Hrest Hin) as [?|?]; [|by right].
      left. by right.
Qed.

Lemma refsOkAfter_spec {R} (t : Table R) db old new x p :
  refsOkAfter t db old new = true -> (x, p) ∈ references t new ->
  (x, p) ∈ references t old \/ present (keysOf p db) x = true.
Proof. apply zip_checked. by destruct t. Qed.

(** No statement leaves a foreign key dangling. *)
Lemma exec_sound {R} now auth_uid (t : Table R) st db :
  sound db -> sound (snd (exec now auth_uid t st db)).
Proof.
  intros Hdb. unfold exec.
  destruct st as [w|vs|w f|w]; cbn iota beta zeta.
  - done.
  - destruct (_ && _) eqn:E; [|done]. cbn [snd].
    rewrite !andb_true_iff in E. destruct E as [[[_ Ea] _] Er].
    destruct (secured_insert _ _ _ _ _ Ea) as [-> _]. cbn [snd].
    apply Forall_forallb in Er. rewrite Forall_forall in Er.
    assert (Hup : forall p k, k ∈ keysOf p db ->
              k ∈ keysOf p (setRows t (rowsOf t db ++ vs) db)).
    { intros p k Hk. rewrite keysOf_setRows. case_bool_decide as Ep; [|done].
      rewrite fmap_app, elem_of_app. left.
      by rewrite <- (keysOf_key t db p Ep). }
    intros R' t' r' x p k Hr' Hin Hx. apply Hup. revert R' t' r' Hr' Hin.
    apply (forall_rows_setRows
             (fun R' t' r' => (x, p) ∈ references t' r' -> k ∈ keysOf p db)).
    + intros R' t' r' Hr' Hin. by eapply Hdb.
    + intros v [Hv|Hv]%elem_of_app Hin; [by eapply Hdb|].
      by eapply (proj1 (refsOk_spec t db v) (Er v Hv)).
  - destruct (_ && _) eqn:E; [|done]. cbn [snd].
    rewrite !andb_true_iff in E. destruct E as [[[[_ Ea] _] Er] Ek].
    rewrite (secured_update _ _ _ _ _ _ Ea) in Ek |- *.
    set (hit := fun r => visible t auth_uid r && w r) in *.
    set (new := fun r => stamped t now (f r)) in *.
    set (g := fun r => if hit r then new r else r).
    apply Forall_forallb in Er. rewrite Forall_forall in Er.
    (* a key some row names is still there *)
    assert (Hkept : forall R' (t' : Table R') r' p k,
              r' ∈ rowsOf t' db -> (Some k, p) ∈ references t' r' ->
              k ∈ keysOf p (setRows t (g <$> rowsOf t db) db)).
    { intros R' t' r' p k Hr' Hin.
      pose proof (Hdb _ t' r' (Some k) p k Hr' Hin eq_refl) as Hk.
      rewrite keysOf_setRows. case_bool_decide as Ep; [|done].
      rewrite (keysOf_key t db p Ep) in Hk.
      apply list_elem_of_fmap in Hk as (r & -> & Hr).
      destruct (hit r) eqn:Eh.
      - unfold keysKept in Ek. rewrite Ep in Ek.
        apply Forall_forallb in Ek. rewrite Forall_forall in Ek.
        specialize (Ek r). simpl in Ek.
        rewrite (referenced_spec t' db r' _ p Hr' Hin) in Ek.
        rewrite orb_false_r, orb_true_iff, !bool_decide_eq_true in Ek.
        destruct Ek as [Ek|Ek]; [by apply elem_of_filter_bool| |done].
        rewrite <- Ek. apply list_elem_of_fmap. exists (g r).
        split; [unfold g; by rewrite Eh | by apply list_elem_of_fmap_2].
      - apply list_elem_of_fmap. exists (g r).
        split; [unfold g; by rewrite Eh | by apply list_elem_of_fmap_2]. }
    intros R' t' r' x p k Hr' Hin ->. revert R' t' r' Hr' Hin.
    apply (forall_rows_setRows
             (fun R' t' r' => (Some k, p) ∈ references t' r' ->
                k ∈ keysOf p (setRows t (g <$> rowsOf t db) db))).
    + intros R' t' r' Hr' Hin. exact (Hkept _ t' r' p k Hr' Hin).
    + intros r' (r & -> & Hr)%list_elem_of_fmap Hin.
      change ((Some k, p) ∈ references t (if hit r then new r else r)) in Hin.
      destruct (hit r) eqn:Eh; [|exact (Hkept _ t r p k Hr Hin)].
      assert (Hh : r ∈ List.filter hit (rowsOf t db))
        by (by apply elem_of_filter_bool).
      destruct (refsOkAfter_spec t db r (new r) _ p (Er r Hh) Hin)
        as [Hold|Hp]; [exact (Hkept _ t r p k Hr Hold)|].
      rewrite keysOf_setRows.
      rewrite bool_decide_eq_false_2 by (by eapply no_self_ref).
      by apply (proj1 (present_spec _ _) Hp).
  - cbn [snd]. set (gone := fun r => _).
    destruct t; cbn [deleteWhere].
    + by apply Integrity_sound, (Stable_integrity db),
        Integrity_sound; [apply deleteUsersWhere_stable|].
    + by apply Integrity_sound, (Stable_integrity db),
        Integrity_sound; [apply deleteProjectsWhere_stable|].
    + by apply Integrity_sound, (Stable_integrity db),
        Integrity_sound; [apply deleteDocumentsWhere_stable|].
    + intros R' t' r' x p k Hr' Hin Hx. rewrite keysOf_setRows.
      rewrite bool_decide_eq_false_2 by done.
      revert R' t' r' Hr' Hin.
      apply (forall_rows_setRows
               (fun R' t' r' => (x, p) ∈ references t' r' ->
                  k ∈ keysOf p db)).
      * intros R' t' r' Hr' Hin. by eapply Hdb.
      * intros r [Hr _]%elem_of_filter_bool Hin.
        by eapply (Hdb _ DocumentChunks).
    + intros R' t' r' x p k Hr' Hin Hx. rewrite keysOf_setRows.
      rewrite bool_decide_eq_false_2 by done.
      revert R' t' r' Hr' Hin.
      apply (forall_rows_setRows
               (fun R' t' r' => (x, p) ∈ references t' r' ->
                  k ∈ keysOf p db)).
      * intros R' t' r' Hr' Hin. by eapply Hdb.
      * intros r [Hr _]%elem_of_filter_bool Hin.
        by eapply (Hdb _ ConversationContexts).
Qed.

Lemma after_sound qs : sound (after qs).
Proof.
  induction qs as [|q qs IH] using rev_ind.
  - intros R t r x p k Hr. destruct t; by apply elem_of_nil in Hr.
  - rewrite after_snoc. by apply exec_sound.
Qed.

(** X25. In every database that statements can make of the schema as
    created, what the schema declares holds: the ids of every table are
    all different (PRIMARY KEY), the emails of the users are all different
    (UNIQUE), every foreign key is NULL or names a row that is there
    (REFERENCES), and every embedding has 1536 components
    (VECTOR(1536)). *)
Theorem statements_keep_the_constraints (qs : list Query) :
  (forall R (t : Table R), NoDup (key t <$> rowsOf t (after qs)))
  /\ NoDup (users.email <$> t_users (after qs))
  /\ Integrity (after qs)
  /\ wellDimensioned (after qs).
Proof.
  split; [apply after_keysUnique|]. split; [apply after_emailsUnique|].
  split; [apply Integrity_sound, after_sound | apply after_wellDimensioned].
Qed.


(** [users] is under no policy: a delete there, by whoever holds the
    privilege, takes with it everything the user owned. *)
Example delete_on_users_cascades :
  let delete2 := Delete (fun r : users.row => users.id r =? 2) in
  let db' := snd (exec 0 (Some 1) Users delete2 sample) in
  fst (exec 0 (Some 1) Users delete2 sample) = Count 1
  /\ projects.id <$> t_projects db' = [10]
  /\ documents.id <$> t_documents db' = [100]
  /\ document_chunks.id <$> t_document_chunks db' = [1000; 1001].
Proof. cbv zeta. repeat split; by vm_compute. Qed.



End StatementsSpec.
